(** * PhantomMask v1: per-application identity derivation and signing

    A shallow embedding of [core/derive.ts] (deriveAppIdentity) and
    [core/sign.ts] (signMessage, verifySignature), together with the parts
    of the JavaScript platform and of the npm packages they call:

    - JavaScript strings are sequences of UTF-16 code units;
      [TextEncoder.encode] turns them into UTF-8 bytes.
    - [bs58] is the raw Bitcoin-style base58 codec.
    - [@noble/hashes] (HMAC-SHA512) and [@noble/ed25519] (getPublicKey,
      sign, verify) are taken as an interface, [Noble], whose operations
      may throw; the facts the proofs need about them are stated as
      hypotheses where they are used.

    A [throw] is a value [Err e] of the error monad [result]; [try/catch]
    is a match on it. *)

From Stdlib Require Import String Ascii NArith Arith Bool List Lia.
From Stdlib.Strings Require Import Byte.
From Stdlib Require DecimalString.
From Stdlib Require Import SpecFloat.
Import ListNotations.

Local Open Scope N_scope.

(* ================================================================== *)
(** * Part I: definitions *)
(* ================================================================== *)

(** ** Values of the platform *)

(** A [Uint8Array]. *)
Definition bytes := list byte.

(** A JavaScript string: its UTF-16 code units, as [charCodeAt] returns
    them (each below 65536 in a real string). *)
Definition js_string := list N.

(** The string written with ASCII characters only. *)
Definition js (s : string) : js_string :=
  map N_of_ascii (list_ascii_of_string s).

(** The byte with the given value ([x00] outside 0..255, never needed). *)
Definition byte_of_N (n : N) : byte :=
  match Byte.of_N n with
  | Some x => x
  | None => x00
  end.

(** [a.slice(start, end)] on an array: out-of-range ends are clamped. *)
Definition slice {A : Type} (start stop : nat) (l : list A) : list A :=
  firstn (stop - start) (skipn start l).

(** ** Errors and the error monad *)

(** Which key a length check is about. *)
Inductive key_role : Type :=
| MasterPrivateKey
| DerivedPrivateKey
| PublicKey.

(** The [Error] objects the code can raise, one constructor per [throw]
    site, named as in the error taxonomy:
    - [DecodeError]: thrown by [bs58.decode];
    - [InvalidKeyLength]: the three "must be 32 bytes" checks;
    - [InvalidSignatureLength]: the "must be 64 bytes" check;
    - [Unknown]: anything thrown inside a primitive of [Noble]. *)
Inductive error : Type :=
| DecodeError
| InvalidKeyLength (role : key_role) (got : nat)
| InvalidSignatureLength (got : nat)
| Unknown (msg : string).

Definition is_InvalidKeyLength (e : error) : bool :=
  match e with
  | InvalidKeyLength _ _ => true
  | _ => false
  end.

Definition decimal (n : nat) : string :=
  DecimalString.NilEmpty.string_of_uint (Nat.to_uint n).

Definition role_name (r : key_role) : string :=
  match r with
  | MasterPrivateKey => "Master private key"
  | DerivedPrivateKey => "Derived private key"
  | PublicKey => "Public key"
  end.

(** The [message] property of the [Error] object. *)
Definition error_message (e : error) : string :=
  match e with
  | DecodeError => "Non-base58 character"
  | InvalidKeyLength r got =>
      role_name r ++ " must be 32 bytes, got " ++ decimal got
  | InvalidSignatureLength got =>
      "Signature must be 64 bytes, got " ++ decimal got
  | Unknown msg => msg
  end%string.

Inductive result (A : Type) : Type :=
| Ok (a : A)
| Err (e : error).

Arguments Ok {A} a.
Arguments Err {A} e.

Definition bind {A B : Type} (r : result A) (k : A -> result B) : result B :=
  match r with
  | Ok a => k a
  | Err e => Err e
  end.

Notation "'let*' x ':=' r 'in' k" := (bind r (fun x => k))
  (at level 10, x name, r at level 100, k at level 200).

(** [if (c) { throw e }] followed by the rest of the body. *)
Definition throw_if {A : Type} (c : bool) (e : error) (k : result A)
  : result A :=
  if c then Err e else k.

(** ** Positional numerals *)

Module Radix.
Section Base.

Variable b : N.

(** Value of a little-endian digit list. *)
Fixpoint of_le (ds : list N) : N :=
  match ds with
  | [] => 0
  | d :: ds' => d + b * of_le ds'
  end.

(** Little-endian digits of [n], least significant first, none for 0;
    [fuel] bounds the number of digits. *)
Fixpoint to_le (fuel : nat) (n : N) : list N :=
  match fuel with
  | O => []
  | S fuel' =>
      if n =? 0 then [] else n mod b :: to_le fuel' (n / b)
  end.

(** Big-endian reading and the shortest big-endian writing. *)
Definition of_be (ds : list N) : N := of_le (rev ds).

Definition to_be (n : N) : list N := rev (to_le (N.size_nat n) n).

End Base.
End Radix.

(** Number of leading elements that satisfy [p]. *)
Fixpoint leading {A : Type} (p : A -> bool) (l : list A) : nat :=
  match l with
  | [] => O
  | x :: l' => if p x then S (leading p l') else O
  end.

(** [Some] of all the results when every element has one. *)
Fixpoint traverse {A B : Type} (f : A -> option B) (l : list A)
  : option (list B) :=
  match l with
  | [] => Some []
  | x :: l' =>
      match f x, traverse f l' with
      | Some y, Some ys => Some (y :: ys)
      | _, _ => None
      end
  end.

(** Position of the first occurrence of [c]. *)
Fixpoint index_of (c : N) (l : list N) : option N :=
  match l with
  | [] => None
  | x :: l' =>
      if x =? c then Some 0 else option_map N.succ (index_of c l')
  end.

(** ** The package [bs58] *)

(** Modelled from the spec: [bs58] is an npm dependency, not a file of the
    repository.  Section 4.3 fixes it as raw Bitcoin-style base58 (no
    checksum, no version byte): every leading zero byte is written as the
    leader ['1'], the remaining bytes are one big-endian number written in
    base 58 over the alphabet below; a character outside the alphabet
    makes [decode] throw. *)
Module bs58.

Definition ALPHABET : js_string :=
  js "123456789ABCDEFGHJKLMNPQRSTUVWXYZabcdefghijkmnopqrstuvwxyz".

Definition BASE : N := 58.

Definition LEADER : N := Eval cbv in N_of_ascii "1".

Definition char_of_digit (d : N) : N := nth (N.to_nat d) ALPHABET 0.

Definition digit_of_char (c : N) : option N := index_of c ALPHABET.

Definition encode (source : bytes) : js_string :=
  let zeroes := leading (Byte.eqb x00) source in
  let value := Radix.of_be 256 (map Byte.to_N source) in
  repeat LEADER zeroes ++ map char_of_digit (Radix.to_be BASE value).

Definition decodeUnsafe (source : js_string) : option bytes :=
  match traverse digit_of_char source with
  | None => None
  | Some digits =>
      let zeroes := leading (N.eqb 0) digits in
      let value := Radix.of_be BASE digits in
      Some (repeat x00 zeroes ++ map byte_of_N (Radix.to_be 256 value))
  end.

Definition decode (source : js_string) : result bytes :=
  match decodeUnsafe source with
  | Some buffer => Ok buffer
  | None => Err DecodeError
  end.

End bs58.

(** ** [TextEncoder] *)

(** [new TextEncoder().encode(s)]: the string is read as Unicode scalar
    values (a high surrogate followed by a low one is one supplementary
    code point, any other surrogate becomes U+FFFD) and each is written in
    UTF-8. *)
Module TextEncoder.

Definition is_high (c : N) : bool := (0xD800 <=? c) && (c <=? 0xDBFF).
Definition is_low (c : N) : bool := (0xDC00 <=? c) && (c <=? 0xDFFF).

Definition REPLACEMENT : N := 0xFFFD.

Fixpoint scalars (s : js_string) : list N :=
  match s with
  | [] => []
  | c :: rest =>
      if is_high c then
        match rest with
        | d :: rest' =>
            if is_low d
            then (0x10000 + (c - 0xD800) * 0x400 + (d - 0xDC00))
                   :: scalars rest'
            else REPLACEMENT :: scalars rest
        | [] => [REPLACEMENT]
        end
      else if is_low c then REPLACEMENT :: scalars rest
      else c :: scalars rest
  end.

Definition utf8 (cp : N) : bytes :=
  if cp <? 0x80 then
    [byte_of_N cp]
  else if cp <? 0x800 then
    [byte_of_N (0xC0 + cp / 0x40);
     byte_of_N (0x80 + cp mod 0x40)]
  else if cp <? 0x10000 then
    [byte_of_N (0xE0 + cp / 0x1000);
     byte_of_N (0x80 + (cp / 0x40) mod 0x40);
     byte_of_N (0x80 + cp mod 0x40)]
  else
    [byte_of_N (0xF0 + cp / 0x40000);
     byte_of_N (0x80 + (cp / 0x1000) mod 0x40);
     byte_of_N (0x80 + (cp / 0x40) mod 0x40);
     byte_of_N (0x80 + cp mod 0x40)].

Definition encode (s : js_string) : bytes := flat_map utf8 (scalars s).

End TextEncoder.

(** ** The packages [@noble/hashes] and [@noble/ed25519] *)

(** The operations [core/noble.ts] exports and [core/derive.ts] imports,
    as functions on byte arrays that either return or throw:
    - [hmac_sha512 key message] is [hmac(sha512, key, message)];
    - [getPublicKey], [sign] and [verify] are the synchronous operations
      of the [ed] object after [core/noble.ts] has installed SHA-512 as
      its hash; their arguments are in the order of the source
      ([sign(message, privateKey)], [verify(signature, message,
      publicKey)]). *)
Record Noble : Type := {
  hmac_sha512 : bytes -> bytes -> result bytes;
  getPublicKey : bytes -> result bytes;
  sign : bytes -> bytes -> result bytes;
  verify : bytes -> bytes -> bytes -> result bool
}.

(** ** [core/derive.ts] and [core/sign.ts] *)

Record identity : Type := {
  privateKey : js_string;
  publicKey : js_string
}.

(** The object [signMessage] returns; its fields are [Signed.signature]
    and [Signed.publicKey]. *)
Module Signed.
Record t : Type := {
  signature : js_string;
  publicKey : js_string
}.
End Signed.

Definition DOMAIN_SEPARATOR : js_string := js "PhantomMask-v1-app:".

Section Core.

Variable ed : Noble.

Definition deriveAppIdentity (masterPrivateKey appId : js_string)
  : result identity :=
  let* masterKeyBytes := bs58.decode masterPrivateKey in
  throw_if (negb (length masterKeyBytes =? 32)%nat)
    (InvalidKeyLength MasterPrivateKey (length masterKeyBytes))
    (let domainMessage := DOMAIN_SEPARATOR ++ appId in
     let messageBytes := TextEncoder.encode domainMessage in
     let* hmacOutput := hmac_sha512 ed masterKeyBytes messageBytes in
     let derivedPrivateKey := slice 0 32 hmacOutput in
     let* derivedPublicKey := getPublicKey ed derivedPrivateKey in
     Ok {| privateKey := bs58.encode derivedPrivateKey;
           publicKey := bs58.encode derivedPublicKey |}).

Definition signMessage (derivedPrivateKey message : js_string)
  : result Signed.t :=
  let* privateKeyBytes := bs58.decode derivedPrivateKey in
  throw_if (negb (length privateKeyBytes =? 32)%nat)
    (InvalidKeyLength DerivedPrivateKey (length privateKeyBytes))
    (let* publicKeyBytes := getPublicKey ed privateKeyBytes in
     let publicKey := bs58.encode publicKeyBytes in
     let messageBytes := TextEncoder.encode message in
     let* signatureBytes := sign ed messageBytes privateKeyBytes in
     let signature := bs58.encode signatureBytes in
     Ok {| Signed.signature := signature;
           Signed.publicKey := publicKey |}).

(** The body of the [try] block of [verifySignature]. *)
Definition verifySignature_try (signature message publicKey : js_string)
  : result bool :=
  let* signatureBytes := bs58.decode signature in
  let* publicKeyBytes := bs58.decode publicKey in
  throw_if (negb (length signatureBytes =? 64)%nat)
    (InvalidSignatureLength (length signatureBytes))
    (throw_if (negb (length publicKeyBytes =? 32)%nat)
       (InvalidKeyLength PublicKey (length publicKeyBytes))
       (let messageBytes := TextEncoder.encode message in
        verify ed signatureBytes messageBytes publicKeyBytes)).

(** [try { ... } catch (error) { return false; }] *)
Definition verifySignature (signature message publicKey : js_string)
  : bool :=
  match verifySignature_try signature message publicKey with
  | Ok valid => valid
  | Err _ => false
  end.

End Core.

(** ** An executable instance of [Noble]

    A small stand-in with the shape of the real primitives (output
    lengths, the exceptions for arguments of the wrong length, agreement
    of [sign] and [verify]) and none of their cryptographic strength.  It
    serves to run the functions above on concrete inputs. *)
Module Model.

(** A polynomial checksum of a byte array. *)
Definition digest (data : bytes) : N :=
  fold_left (fun acc x => (acc * 257 + Byte.to_N x + 1) mod 4294967291)
    data 7.

(** [n] bytes spun out of a seed. *)
Fixpoint expand (n : nat) (seed : N) : bytes :=
  match n with
  | O => []
  | S n' =>
      byte_of_N (seed mod 256)
        :: expand n' ((seed * 1103515245 + 12345) mod 4294967296)
  end.

Definition hmac_sha512 (key message : bytes) : result bytes :=
  Ok (expand 64 (digest (key ++ x00 :: message))).

Definition getPublicKey (priv : bytes) : result bytes :=
  if (length priv =? 32)%nat
  then Ok (expand 32 (digest priv))
  else Err (Unknown "private key of length 32 expected").

Definition tag (pub message : bytes) : bytes :=
  expand 32 (digest (pub ++ message)).

Definition sign (message priv : bytes) : result bytes :=
  let* pub := getPublicKey priv in
  Ok (pub ++ tag pub message).

Definition bytes_eqb (a b : bytes) : bool :=
  if list_eq_dec Byte.byte_eq_dec a b then true else false.

Definition verify (sig message pub : bytes) : result bool :=
  if negb (length sig =? 64)%nat
  then Err (Unknown "signature of length 64 expected")
  else if negb (length pub =? 32)%nat
  then Ok false
  else Ok (bytes_eqb sig (pub ++ tag pub message)).

Definition noble : Noble :=
  Build_Noble hmac_sha512 getPublicKey sign verify.

End Model.

(** An instance whose every operation throws: a call that reaches a
    primitive ends with this error. *)
Definition unavailable : Noble :=
  {| hmac_sha512 := fun _ _ => Err (Unknown "hmac called");
     getPublicKey := fun _ => Err (Unknown "getPublicKey called");
     sign := fun _ _ => Err (Unknown "sign called");
     verify := fun _ _ _ => Err (Unknown "verify called") |}.

(** The all-zero master key, in base58. *)
Definition zero_key : js_string := js "11111111111111111111111111111111".

(* ================================================================== *)
(** * Part II: facts about the platform and the packages *)
(* ================================================================== *)

(** ** Positional numerals *)

Section RadixFacts.

Variable b : N.
Hypothesis b_gt_1 : 1 < b.

Local Abbreviation of_le := (Radix.of_le b).
Local Abbreviation to_le := (Radix.to_le b).

Lemma pow2_succ (f : nat) : 2 ^ N.of_nat (S f) = 2 * 2 ^ N.of_nat f.
Proof. rewrite Nat2N.inj_succ, N.pow_succ_r'. reflexivity. Qed.

Lemma div_base_lt (f : nat) (n : N) :
  n < 2 ^ N.of_nat (S f) -> n / b < 2 ^ N.of_nat f.
Proof.
  rewrite pow2_succ. intros H.
  apply N.Div0.div_lt_upper_bound.
  assert (2 * 2 ^ N.of_nat f <= b * 2 ^ N.of_nat f)
    by (apply N.mul_le_mono_r; lia).
  lia.
Qed.

Lemma to_le_zero (f : nat) : to_le f 0 = [].
Proof. destruct f; reflexivity. Qed.

Lemma of_le_to_le (f : nat) :
  forall n, n < 2 ^ N.of_nat f -> of_le (to_le f n) = n.
Proof.
  induction f as [|f IH]; intros n H.
  - simpl in *. lia.
  - cbn [Radix.to_le]. destruct (N.eqb_spec n 0) as [->|Hn].
    + reflexivity.
    + cbn [Radix.of_le].
      rewrite IH by (apply div_base_lt; assumption).
      pose proof (N.div_mod n b ltac:(lia)). lia.
Qed.

Lemma to_le_digits (f : nat) :
  forall n, Forall (fun d => d < b) (to_le f n).
Proof.
  induction f as [|f IH]; intros n; cbn [Radix.to_le].
  - constructor.
  - destruct (n =? 0); constructor.
    + apply N.mod_lt. lia.
    + apply IH.
Qed.

Lemma to_le_nil (f : nat) (n : N) :
  n < 2 ^ N.of_nat f -> to_le f n = [] -> n = 0.
Proof.
  intros H E. rewrite <- (of_le_to_le f n H), E. reflexivity.
Qed.

Lemma to_le_last (f : nat) :
  forall n, n < 2 ^ N.of_nat f -> last (to_le f n) 1 <> 0.
Proof.
  induction f as [|f IH]; intros n H.
  - simpl. lia.
  - cbn [Radix.to_le]. destruct (N.eqb_spec n 0) as [->|Hn].
    + simpl. lia.
    + pose proof (div_base_lt f n H) as Hq.
      destruct (to_le f (n / b)) as [|d ds] eqn:E.
      * apply to_le_nil in E; [|assumption].
        cbn [last]. pose proof (N.div_mod n b ltac:(lia)). nia.
      * specialize (IH (n / b) Hq). rewrite E in IH.
        change (last (n mod b :: d :: ds) 1) with (last (d :: ds) 1).
        exact IH.
Qed.

Lemma of_le_nonzero (ds : list N) :
  ds <> [] -> last ds 1 <> 0 -> of_le ds <> 0.
Proof.
  induction ds as [|d ds IH]; intros Hne Hlast; [congruence|].
  cbn [Radix.of_le].
  destruct ds as [|d' ds'].
  - simpl in *. lia.
  - assert (of_le (d' :: ds') <> 0) by (apply IH; [congruence|exact Hlast]).
    nia.
Qed.

Lemma to_le_of_le (ds : list N) :
  Forall (fun d => d < b) ds -> last ds 1 <> 0 ->
  forall f, of_le ds < 2 ^ N.of_nat f -> to_le f (of_le ds) = ds.
Proof.
  induction ds as [|d ds IH]; intros Hds Hlast f Hf.
  - apply to_le_zero.
  - assert (Hnz : of_le (d :: ds) <> 0)
      by (apply of_le_nonzero; [congruence|assumption]).
    inversion Hds as [|? ? Hd Hds']; subst.
    destruct f as [|f]; [change (2 ^ N.of_nat 0) with 1 in Hf; lia|].
    cbn [Radix.to_le].
    destruct (N.eqb_spec (of_le (d :: ds)) 0) as [E|_]; [contradiction|].
    pose proof (div_base_lt f _ Hf) as Hq.
    cbn [Radix.of_le] in *.
    assert (Emod : (d + b * of_le ds) mod b = d).
    { rewrite (N.mul_comm b), N.Div0.mod_add.
      apply N.mod_small. assumption. }
    assert (Ediv : (d + b * of_le ds) / b = of_le ds).
    { rewrite (N.mul_comm b), N.div_add by lia.
      rewrite (N.div_small d b) by assumption. lia. }
    rewrite Emod, Ediv. f_equal.
    rewrite Ediv in Hq. apply IH; try assumption.
    destruct ds as [|d' ds']; [simpl; lia|exact Hlast].
Qed.

Lemma of_le_app_zeros (ds : list N) (z : nat) :
  of_le (ds ++ repeat 0 z) = of_le ds.
Proof.
  induction ds as [|d ds IH]; cbn [app Radix.of_le].
  - induction z as [|z IHz]; simpl; [reflexivity|].
    rewrite IHz. lia.
  - rewrite IH. reflexivity.
Qed.

Lemma size_nat_gt (n : N) : n < 2 ^ N.of_nat (N.size_nat n).
Proof.
  destruct n as [|p]; [reflexivity|].
  cbn [N.size_nat].
  induction p as [p IH|p IH|]; cbn [Pos.size_nat].
  - rewrite pow2_succ. lia.
  - rewrite pow2_succ. lia.
  - reflexivity.
Qed.

Lemma last_rev {A : Type} (l : list A) (d : A) : last (rev l) d = hd d l.
Proof.
  destruct l as [|x l]; [reflexivity|].
  simpl. apply last_last.
Qed.

(** Reading back the digits written gives the number. *)
Lemma of_be_to_be (n : N) : Radix.of_be b (Radix.to_be b n) = n.
Proof.
  unfold Radix.of_be, Radix.to_be. rewrite rev_involutive.
  apply of_le_to_le, size_nat_gt.
Qed.

(** A digit list without a leading zero is the one written for its
    value. *)
Lemma to_be_of_be (ds : list N) :
  Forall (fun d => d < b) ds -> hd 1 ds <> 0 ->
  Radix.to_be b (Radix.of_be b ds) = ds.
Proof.
  intros Hds Hhd. unfold Radix.of_be, Radix.to_be.
 
  rewrite to_le_of_le.
  - apply rev_involutive.
  - apply Forall_rev. assumption.
  - rewrite last_rev. assumption.
  - apply size_nat_gt.
Qed.

Lemma to_be_digits (n : N) : Forall (fun d => d < b) (Radix.to_be b n).
Proof. apply Forall_rev, to_le_digits. Qed.

Lemma to_be_hd (n : N) : hd 1 (Radix.to_be b n) <> 0.
Proof.
  unfold Radix.to_be. rewrite <- last_rev, rev_involutive.
  apply to_le_last, size_nat_gt.
Qed.

Lemma of_be_zeros_app (z : nat) (ds : list N) :
  Radix.of_be b (repeat 0 z ++ ds) = Radix.of_be b ds.
Proof.
  unfold Radix.of_be. rewrite rev_app_distr, rev_repeat.
  apply of_le_app_zeros.
Qed.

End RadixFacts.

(** ** Lists *)

Lemma traverse_app {A B : Type} (f : A -> option B) (l1 l2 : list A) :
  traverse f (l1 ++ l2) =
  match traverse f l1, traverse f l2 with
  | Some r1, Some r2 => Some (r1 ++ r2)
  | _, _ => None
  end.
Proof.
  induction l1 as [|x l1 IH]; simpl.
  - destruct (traverse f l2); reflexivity.
  - rewrite IH. destruct (f x); [|reflexivity].
    destruct (traverse f l1); [|reflexivity].
    destruct (traverse f l2); reflexivity.
Qed.

Lemma traverse_map {A B : Type} (f : A -> option B) (g : B -> A)
  (l : list B) :
  Forall (fun y => f (g y) = Some y) l -> traverse f (map g l) = Some l.
Proof.
  induction 1 as [|y l Hy _ IH]; simpl; [reflexivity|].
  rewrite Hy, IH. reflexivity.
Qed.

Lemma traverse_repeat {A B : Type} (f : A -> option B) (x : A) (y : B)
  (n : nat) :
  f x = Some y -> traverse f (repeat x n) = Some (repeat y n).
Proof.
  intros H. induction n as [|n IH]; simpl; [reflexivity|].
  rewrite H, IH. reflexivity.
Qed.

Lemma traverse_None {A B : Type} (f : A -> option B) (l : list A) :
  traverse f l = None <-> exists x, In x l /\ f x = None.
Proof.
  induction l as [|x l IH]; simpl.
  - split; [discriminate|intros (? & [] & _)].
  - destruct (f x) as [y|] eqn:Ex.
    + destruct (traverse f l) as [ys|].
      * split; [discriminate|].
        intros (x' & [<-|Hin] & Hx'); [congruence|].
        assert (Some ys = None) by (apply IH; eauto). discriminate.
      * split; [|reflexivity]. intros _.
        destruct (proj1 IH eq_refl) as (x' & Hin & Hx'). exists x'. auto.
    + split; [|reflexivity]. intros _. exists x. auto.
Qed.

Lemma leading_repeat_app {A : Type} (p : A -> bool) (x : A) (n : nat)
  (l : list A) :
  p x = true -> leading p l = O -> leading p (repeat x n ++ l) = n.
Proof.
  intros Hx Hl. induction n as [|n IH]; simpl; [assumption|].
  rewrite Hx, IH. reflexivity.
Qed.

(** A list is its leading run followed by a rest that does not start with
    an element of the run. *)
Lemma leading_split {A : Type} (p : A -> bool) (x : A) (l : list A) :
  (forall y, p y = true -> y = x) ->
  exists rest, l = repeat x (leading p l) ++ rest /\ leading p rest = O.
Proof.
  intros Hp. induction l as [|y l (rest & E & Hrest)]; simpl.
  - exists []. auto.
  - destruct (p y) eqn:Ey.
    + exists rest. apply Hp in Ey. subst y. simpl. rewrite <- E. auto.
    + exists (y :: l). simpl. rewrite Ey. auto.
Qed.

Lemma index_of_Some (c : N) (l : list N) (i : N) :
  index_of c l = Some i ->
  (N.to_nat i < length l)%nat /\ nth (N.to_nat i) l 0 = c.
Proof.
  revert i. induction l as [|x l IH]; intros i; simpl; [discriminate|].
  destruct (N.eqb_spec x c) as [->|Hne].
  - intros [= <-]. simpl. split; [lia|reflexivity].
  - destruct (index_of c l) as [j|]; [|discriminate].
    intros [= <-]. destruct (IH j eq_refl) as [Hlt Hnth].
    rewrite N2Nat.inj_succ. simpl. split; [lia|assumption].
Qed.

Lemma index_of_None (c : N) (l : list N) :
  index_of c l = None <-> ~ In c l.
Proof.
  induction l as [|x l IH]; simpl.
  - split; [intros _ []|reflexivity].
  - destruct (N.eqb_spec x c) as [->|Hne].
    + split; [discriminate|]. intros H. exfalso. auto.
    + destruct (index_of c l) as [j|].
      * split; [discriminate|]. intros H. exfalso.
        assert (~ In c l) as H' by tauto. apply IH in H'. discriminate.
      * split; [|reflexivity]. intros _ [E|Hin]; [congruence|].
        apply (proj1 IH); auto.
Qed.

Lemma index_of_nth (l : list N) (i : nat) :
  NoDup l -> (i < length l)%nat ->
  index_of (nth i l 0) l = Some (N.of_nat i).
Proof.
  intros Hnd. revert i.
  induction Hnd as [|x l Hnotin _ IH]; intros i Hi; simpl in Hi; [lia|].
  destruct i as [|i]; cbn [nth index_of].
  - rewrite N.eqb_refl. reflexivity.
  - destruct (N.eqb_spec x (nth i l 0)) as [E|_].
    + exfalso. apply Hnotin. rewrite E. apply nth_In. lia.
    + rewrite IH by lia. simpl. f_equal. lia.
Qed.

Lemma byte_of_to_N (x : byte) : byte_of_N (Byte.to_N x) = x.
Proof. unfold byte_of_N. rewrite Byte.of_to_N. reflexivity. Qed.

Lemma to_N_byte_of_N (n : N) : n < 256 -> Byte.to_N (byte_of_N n) = n.
Proof.
  intros H. unfold byte_of_N. destruct (Byte.of_N n) as [x|] eqn:E.
  - apply Byte.to_of_N. assumption.
  - apply Byte.of_N_None_iff in E. lia.
Qed.

Lemma to_N_lt_256 (x : byte) : Byte.to_N x < 256.
Proof. pose proof (Byte.to_N_bounded x). lia. Qed.

Lemma map_byte_of_to_N (l : bytes) : map byte_of_N (map Byte.to_N l) = l.
Proof.
  rewrite map_map. rewrite <- (map_id l) at 2.
  apply map_ext. apply byte_of_to_N.
Qed.

(** ** base58 *)

Module bs58_facts.

Import bs58.

Lemma ALPHABET_length : length ALPHABET = 58%nat.
Proof. reflexivity. Qed.

Lemma ALPHABET_NoDup : NoDup ALPHABET.
Proof.
  assert (E : nodup N.eq_dec ALPHABET = ALPHABET) by (vm_compute; reflexivity).
  rewrite <- E. apply NoDup_nodup.
Qed.

Lemma digit_of_char_of_digit (d : N) :
  d < BASE -> digit_of_char (char_of_digit d) = Some d.
Proof.
  intros H. unfold digit_of_char, char_of_digit.
  rewrite index_of_nth.
  - rewrite N2Nat.id. reflexivity.
  - apply ALPHABET_NoDup.
  - rewrite ALPHABET_length. unfold BASE in H. lia.
Qed.

Lemma digit_of_char_Some (c d : N) :
  digit_of_char c = Some d -> d < BASE /\ char_of_digit d = c.
Proof.
  intros H. apply index_of_Some in H. destruct H as [Hlt Hnth].
  rewrite ALPHABET_length in Hlt. unfold BASE. split; [lia|assumption].
Qed.

Lemma digit_of_char_None (c : N) :
  digit_of_char c = None <-> ~ In c ALPHABET.
Proof. apply index_of_None. Qed.

Lemma leading_zero_digits (ds : list N) :
  hd 1 ds <> 0 -> leading (N.eqb 0) ds = O.
Proof.
  destruct ds as [|d ds]; cbn [hd leading]; [reflexivity|]. intros H.
  destruct (N.eqb_spec 0 d); [congruence|reflexivity].
Qed.

Lemma leading_nonzero_bytes (rest : bytes) :
  leading (Byte.eqb x00) rest = O -> hd 1 (map Byte.to_N rest) <> 0.
Proof.
  destruct rest as [|x rest]; cbn [hd leading map]; [lia|].
  destruct (Byte.eqb x00 x) eqn:E; [discriminate|]. intros _ H.
  assert (x = x00).
  { rewrite <- (byte_of_to_N x), H. reflexivity. }
  subst x. discriminate.
Qed.

(** What [encode] writes, [decodeUnsafe] reads back. *)
Lemma decodeUnsafe_encode (source : bytes) :
  decodeUnsafe (encode source) = Some source.
Proof.
  destruct (leading_split (Byte.eqb x00) x00 source) as (rest & E & Hrest).
  { intros y Hy. apply Byte.byte_dec_bl in Hy. congruence. }
  unfold decodeUnsafe, encode.
  remember (leading (Byte.eqb x00) source) as zeroes eqn:Hz. clear Hz.
  subst source.
  rewrite map_app, map_repeat. change (Byte.to_N x00) with 0.
  rewrite of_be_zeros_app by reflexivity.
  set (value := Radix.of_be 256 (map Byte.to_N rest)).
  pose proof (to_be_digits BASE eq_refl value) as Hdigits.
  pose proof (to_be_hd BASE eq_refl value) as Hhd.
  rewrite traverse_app.
  rewrite (traverse_repeat digit_of_char LEADER 0) by reflexivity.
  rewrite traverse_map.
  2:{ eapply Forall_impl; [|exact Hdigits].
      intros d Hd. apply digit_of_char_of_digit. exact Hd. }
  rewrite leading_repeat_app;
    [|reflexivity|apply leading_zero_digits; assumption].
  rewrite of_be_zeros_app, of_be_to_be by reflexivity.
  unfold value. rewrite to_be_of_be.
  - rewrite map_byte_of_to_N. reflexivity.
  - reflexivity.
  - apply Forall_map, Forall_forall. intros x _. apply to_N_lt_256.
  - apply leading_nonzero_bytes. assumption.
Qed.

(** Round trip of the encoding layer. *)
Lemma decode_encode (source : bytes) : decode (encode source) = Ok source.
Proof. unfold decode. rewrite decodeUnsafe_encode. reflexivity. Qed.


(** [decode] throws exactly on a character outside the alphabet, and
    what it throws is the decode error. *)
Lemma decode_Err (source : js_string) (e : error) :
  decode source = Err e <->
  e = DecodeError /\ exists c, In c source /\ ~ In c ALPHABET.
Proof.
  unfold decode, decodeUnsafe.
  destruct (traverse digit_of_char source) as [ds|] eqn:E.
  - split; [discriminate|]. intros (_ & c & Hin & Hc). exfalso.
    assert (traverse digit_of_char source = None); [|congruence].
    apply traverse_None. exists c. split; [assumption|].
    apply digit_of_char_None. assumption.
  - apply traverse_None in E. destruct E as (c & Hin & Hc).
    apply digit_of_char_None in Hc.
    split; [intros [= <-]; eauto|intros [-> _]; reflexivity].
Qed.

End bs58_facts.

(** ** TextEncoder *)

Module TextEncoder_facts.

Import TextEncoder.

(** Appending to a string that holds no high surrogate does not change
    how its code units are read. *)
Lemma scalars_app (s1 s2 : js_string) :
  Forall (fun c => is_high c = false) s1 ->
  scalars (s1 ++ s2) = scalars s1 ++ scalars s2.
Proof.
  induction 1 as [|c s1 Hc _ IH]; [reflexivity|].
  cbn [app scalars]. rewrite Hc, IH.
  destruct (is_low c); reflexivity.
Qed.

Lemma encode_app (s1 s2 : js_string) :
  Forall (fun c => is_high c = false) s1 ->
  encode (s1 ++ s2) = encode s1 ++ encode s2.
Proof.
  intros H. unfold encode. rewrite scalars_app by assumption.
  apply flat_map_app.
Qed.

Lemma encode_nil : encode [] = [].
Proof. reflexivity. Qed.

End TextEncoder_facts.

(** The domain separator is ASCII: its encoding is its characters, and
    the encoding of the domain message is that prefix followed by the
    encoding of the identifier. *)
Lemma DOMAIN_SEPARATOR_bytes :
  TextEncoder.encode DOMAIN_SEPARATOR
  = list_byte_of_string "PhantomMask-v1-app:".
Proof. reflexivity. Qed.

Lemma domainMessage_bytes (appId : js_string) :
  TextEncoder.encode (DOMAIN_SEPARATOR ++ appId)
  = list_byte_of_string "PhantomMask-v1-app:" ++ TextEncoder.encode appId.
Proof.
  rewrite TextEncoder_facts.encode_app; [reflexivity|].
  apply Forall_forall. intros c Hc.
  assert (Hall : forallb (fun c => negb (TextEncoder.is_high c))
                   DOMAIN_SEPARATOR = true) by reflexivity.
  rewrite forallb_forall in Hall. apply Hall in Hc.
  destruct (TextEncoder.is_high c); [discriminate|reflexivity].
Qed.

(** ** The error monad *)

Lemma bind_Ok {A B : Type} (r : result A) (k : A -> result B) (b : B) :
  bind r k = Ok b <-> exists a, r = Ok a /\ k a = Ok b.
Proof.
  destruct r as [a|e]; simpl.
  - split; [eauto|]. intros (a' & [= <-] & H). exact H.
  - split; [discriminate|]. intros (a' & [=] & _).
Qed.

Lemma throw_if_Ok {A : Type} (c : bool) (e : error) (k : result A) (a : A) :
  throw_if c e k = Ok a <-> c = false /\ k = Ok a.
Proof.
  destruct c; simpl; split; try tauto; try discriminate.
  intros [[=] _].
Qed.

Lemma Ok_inj {A : Type} (a b : A) : Ok a = Ok b -> a = b.
Proof. intros [= H]. exact H. Qed.

Lemma slice_0 {A : Type} (n : nat) (l : list A) : slice 0 n l = firstn n l.
Proof. unfold slice. rewrite Nat.sub_0_r. reflexivity. Qed.

(** ** The executable instance satisfies the interface's contract *)

Module Model_facts.

Lemma expand_length (n : nat) :
  forall seed, length (Model.expand n seed) = n.
Proof.
  induction n as [|n IH]; intros seed; cbn [Model.expand length];
    [reflexivity|].
  rewrite IH. reflexivity.
Qed.

Lemma hmac_sha512_ok (key message : bytes) :
  exists h,
    hmac_sha512 Model.noble key message = Ok h /\ length h = 64%nat.
Proof.
  change (hmac_sha512 Model.noble) with Model.hmac_sha512.
  unfold Model.hmac_sha512.
  eexists. split; [reflexivity|apply expand_length].
Qed.

Lemma getPublicKey_ok (priv : bytes) :
  length priv = 32%nat ->
  exists pub,
    getPublicKey Model.noble priv = Ok pub /\ length pub = 32%nat.
Proof.
  intros H. change (getPublicKey Model.noble) with Model.getPublicKey.
  unfold Model.getPublicKey. rewrite H, Nat.eqb_refl.
  eexists. split; [reflexivity|apply expand_length].
Qed.

Lemma sign_ok (message priv : bytes) :
  length priv = 32%nat ->
  exists sig,
    sign Model.noble message priv = Ok sig /\ length sig = 64%nat.
Proof.
  intros H. change (sign Model.noble) with Model.sign.
  unfold Model.sign, Model.getPublicKey. rewrite H, Nat.eqb_refl.
  cbn [bind]. eexists. split; [reflexivity|].
  rewrite length_app. unfold Model.tag. rewrite !expand_length.
  reflexivity.
Qed.

Lemma bytes_eqb_refl (a : bytes) : Model.bytes_eqb a a = true.
Proof.
  unfold Model.bytes_eqb.
  destruct (list_eq_dec Byte.byte_eq_dec a a); congruence.
Qed.

Lemma verify_sign (message priv pub sig : bytes) :
  getPublicKey Model.noble priv = Ok pub ->
  sign Model.noble message priv = Ok sig ->
  verify Model.noble sig message pub = Ok true.
Proof.
  change (getPublicKey Model.noble) with Model.getPublicKey.
  change (sign Model.noble) with Model.sign.
  change (verify Model.noble) with Model.verify.
  unfold Model.sign. intros Hpub. rewrite Hpub. cbn [bind].
  intros [= <-]. unfold Model.getPublicKey in Hpub.
  destruct (length priv =? 32)%nat; [|discriminate].
  apply Ok_inj in Hpub. subst pub.
  unfold Model.verify. rewrite length_app. unfold Model.tag at 1.
  rewrite !expand_length. cbn [Nat.add Nat.eqb negb].
  rewrite bytes_eqb_refl. reflexivity.
Qed.

End Model_facts.

(** ** [deriveAppIdentity] and [signMessage], step by step *)

Section CoreFacts.

Variable ed : Noble.

(** Past the length check, [deriveAppIdentity] is the two primitive
    calls and the encoding of their results. *)
Lemma deriveAppIdentity_valid (masterPrivateKey appId : js_string)
  (masterKeyBytes : bytes) :
  bs58.decode masterPrivateKey = Ok masterKeyBytes ->
  length masterKeyBytes = 32%nat ->
  deriveAppIdentity ed masterPrivateKey appId =
  (let* hmacOutput :=
     hmac_sha512 ed masterKeyBytes
       (TextEncoder.encode (DOMAIN_SEPARATOR ++ appId)) in
   let* derivedPublicKey := getPublicKey ed (firstn 32 hmacOutput) in
   Ok {| privateKey := bs58.encode (firstn 32 hmacOutput);
         publicKey := bs58.encode derivedPublicKey |}).
Proof.
  intros Hdec Hlen. unfold deriveAppIdentity.
  rewrite Hdec. cbn [bind]. rewrite Hlen, Nat.eqb_refl.
  cbn [negb throw_if].
  destruct (hmac_sha512 ed _ _) as [h|e]; cbn [bind]; [|reflexivity].
  rewrite slice_0. reflexivity.
Qed.

Lemma signMessage_valid (derivedPrivateKey message : js_string)
  (privateKeyBytes : bytes) :
  bs58.decode derivedPrivateKey = Ok privateKeyBytes ->
  length privateKeyBytes = 32%nat ->
  signMessage ed derivedPrivateKey message =
  (let* publicKeyBytes := getPublicKey ed privateKeyBytes in
   let* signatureBytes :=
     sign ed (TextEncoder.encode message) privateKeyBytes in
   Ok {| Signed.signature := bs58.encode signatureBytes;
         Signed.publicKey := bs58.encode publicKeyBytes |}).
Proof.
  intros Hdec Hlen. unfold signMessage.
  rewrite Hdec. cbn [bind]. rewrite Hlen, Nat.eqb_refl.
  reflexivity.
Qed.

Lemma deriveAppIdentity_short (masterPrivateKey appId : js_string)
  (masterKeyBytes : bytes) :
  bs58.decode masterPrivateKey = Ok masterKeyBytes ->
  length masterKeyBytes <> 32%nat ->
  deriveAppIdentity ed masterPrivateKey appId =
  Err (InvalidKeyLength MasterPrivateKey (length masterKeyBytes)).
Proof.
  intros Hdec Hlen. unfold deriveAppIdentity.
  rewrite Hdec. cbn [bind].
  apply Nat.eqb_neq in Hlen. rewrite Hlen. reflexivity.
Qed.

Lemma signMessage_short (derivedPrivateKey message : js_string)
  (privateKeyBytes : bytes) :
  bs58.decode derivedPrivateKey = Ok privateKeyBytes ->
  length privateKeyBytes <> 32%nat ->
  signMessage ed derivedPrivateKey message =
  Err (InvalidKeyLength DerivedPrivateKey (length privateKeyBytes)).
Proof.
  intros Hdec Hlen. unfold signMessage.
  rewrite Hdec. cbn [bind].
  apply Nat.eqb_neq in Hlen. rewrite Hlen. reflexivity.
Qed.

(** Everything a successful call has gone through. *)
Lemma deriveAppIdentity_Ok (masterPrivateKey appId : js_string)
  (id : identity) :
  deriveAppIdentity ed masterPrivateKey appId = Ok id ->
  exists masterKeyBytes hmacOutput derivedPublicKey,
    bs58.decode masterPrivateKey = Ok masterKeyBytes
    /\ length masterKeyBytes = 32%nat
    /\ hmac_sha512 ed masterKeyBytes
         (TextEncoder.encode (DOMAIN_SEPARATOR ++ appId)) = Ok hmacOutput
    /\ getPublicKey ed (firstn 32 hmacOutput) = Ok derivedPublicKey
    /\ id = {| privateKey := bs58.encode (firstn 32 hmacOutput);
               publicKey := bs58.encode derivedPublicKey |}.
Proof.
  unfold deriveAppIdentity. intros H.
  apply bind_Ok in H. destruct H as (k & Hdec & H).
  apply throw_if_Ok in H. destruct H as [Hlen H].
  apply bind_Ok in H. destruct H as (h & Hh & H).
  apply bind_Ok in H. destruct H as (pub & Hpub & H).
  rewrite slice_0 in Hpub, H. apply Ok_inj in H.
  apply negb_false_iff, Nat.eqb_eq in Hlen.
  exists k, h, pub. auto.
Qed.

Lemma verifySignature_true (signature message publicKey : js_string) :
  verifySignature ed signature message publicKey = true <->
  exists signatureBytes publicKeyBytes,
    bs58.decode signature = Ok signatureBytes
    /\ bs58.decode publicKey = Ok publicKeyBytes
    /\ length signatureBytes = 64%nat
    /\ length publicKeyBytes = 32%nat
    /\ verify ed signatureBytes (TextEncoder.encode message)
         publicKeyBytes = Ok true.
Proof.
  unfold verifySignature, verifySignature_try. split.
  - destruct (bs58.decode signature) as [sb|]; [|discriminate].
    destruct (bs58.decode publicKey) as [pb|]; [|discriminate].
    cbn [bind]. unfold throw_if.
    destruct (Nat.eqb_spec (length sb) 64) as [Hs|]; [|discriminate].
    destruct (Nat.eqb_spec (length pb) 32) as [Hp|]; [|discriminate].
    cbn [negb].
    destruct (verify ed sb (TextEncoder.encode message) pb) as [v|] eqn:Hv;
      [|discriminate].
    intros ->. exists sb, pb. auto.
  - intros (sb & pb & -> & -> & Hs & Hp & Hv).
    cbn [bind]. rewrite Hs, Hp. cbn [Nat.eqb negb throw_if].
    rewrite Hv. reflexivity.
Qed.

End CoreFacts.

(* ================================================================== *)
(** * Part III: the protocol's properties *)
(* ================================================================== *)

Section Protocol.

Variable ed : Noble.

(** The contract of the primitives: HMAC-SHA512 returns 64 bytes; on a
    32-byte private key [getPublicKey] returns 32 bytes and [sign]
    returns 64 bytes; a signature made by [sign] is accepted by
    [verify] under the public key of the signing key. *)
Hypothesis hmac_sha512_ok : forall key message,
  exists h, hmac_sha512 ed key message = Ok h /\ length h = 64%nat.
Hypothesis getPublicKey_ok : forall priv,
  length priv = 32%nat ->
  exists pub, getPublicKey ed priv = Ok pub /\ length pub = 32%nat.
Hypothesis sign_ok : forall message priv,
  length priv = 32%nat ->
  exists sig, sign ed message priv = Ok sig /\ length sig = 64%nat.
Hypothesis verify_sign : forall message priv pub sig,
  getPublicKey ed priv = Ok pub ->
  sign ed message priv = Ok sig ->
  verify ed sig message pub = Ok true.

(** The derivation of a valid master key, with every intermediate
    value named. *)
Lemma derive_steps (masterPrivateKey appId : js_string)
  (masterKeyBytes : bytes) :
  bs58.decode masterPrivateKey = Ok masterKeyBytes ->
  length masterKeyBytes = 32%nat ->
  exists hmacOutput derivedPublicKey,
    hmac_sha512 ed masterKeyBytes
      (TextEncoder.encode (DOMAIN_SEPARATOR ++ appId)) = Ok hmacOutput
    /\ length hmacOutput = 64%nat
    /\ length (firstn 32 hmacOutput) = 32%nat
    /\ getPublicKey ed (firstn 32 hmacOutput) = Ok derivedPublicKey
    /\ length derivedPublicKey = 32%nat
    /\ deriveAppIdentity ed masterPrivateKey appId =
       Ok {| privateKey := bs58.encode (firstn 32 hmacOutput);
             publicKey := bs58.encode derivedPublicKey |}.
Proof.
  intros Hdec Hlen.
  destruct (hmac_sha512_ok masterKeyBytes
              (TextEncoder.encode (DOMAIN_SEPARATOR ++ appId)))
    as (h & Hh & Hlenh).
  assert (Hsk : length (firstn 32 h) = 32%nat)
    by (rewrite length_firstn; lia).
  destruct (getPublicKey_ok _ Hsk) as (pub & Hpub & Hlenpub).
  exists h, pub. repeat split; try assumption.
  rewrite (deriveAppIdentity_valid ed _ _ _ Hdec Hlen), Hh.
  cbn [bind]. rewrite Hpub. reflexivity.
Qed.

Lemma sign_steps (derivedPrivateKey message : js_string)
  (privateKeyBytes : bytes) :
  bs58.decode derivedPrivateKey = Ok privateKeyBytes ->
  length privateKeyBytes = 32%nat ->
  exists publicKeyBytes signatureBytes,
    getPublicKey ed privateKeyBytes = Ok publicKeyBytes
    /\ length publicKeyBytes = 32%nat
    /\ sign ed (TextEncoder.encode message) privateKeyBytes
       = Ok signatureBytes
    /\ length signatureBytes = 64%nat
    /\ signMessage ed derivedPrivateKey message =
       Ok {| Signed.signature := bs58.encode signatureBytes;
             Signed.publicKey := bs58.encode publicKeyBytes |}.
Proof.
  intros Hdec Hlen.
  destruct (getPublicKey_ok _ Hlen) as (pub & Hpub & Hlenpub).
  destruct (sign_ok (TextEncoder.encode message) _ Hlen)
    as (sig & Hsig & Hlensig).
  exists pub, sig. repeat split; try assumption.
  rewrite (signMessage_valid ed _ _ _ Hdec Hlen), Hpub.
  cbn [bind]. rewrite Hsig. reflexivity.
Qed.

(** C1.  For a master key that decodes to 32 bytes and any [appId],
    the derived private key is the first 32 bytes of HMAC-SHA512, keyed
    with the decoded master key, over the bytes of
    "PhantomMask-v1-app:" followed by the UTF-8 bytes of [appId]; the
    derived public key is the ed25519 public key of those 32 bytes; the
    call returns both base58-encoded. *)
Theorem C1_derive_computes (masterPrivateKey appId : js_string)
  (masterKeyBytes : bytes) :
  bs58.decode masterPrivateKey = Ok masterKeyBytes ->
  length masterKeyBytes = 32%nat ->
  exists hmacOutput derivedPublicKey,
    hmac_sha512 ed masterKeyBytes
      (list_byte_of_string "PhantomMask-v1-app:"
         ++ TextEncoder.encode appId) = Ok hmacOutput
    /\ length (firstn 32 hmacOutput) = 32%nat
    /\ getPublicKey ed (firstn 32 hmacOutput) = Ok derivedPublicKey
    /\ deriveAppIdentity ed masterPrivateKey appId =
       Ok {| privateKey := bs58.encode (firstn 32 hmacOutput);
             publicKey := bs58.encode derivedPublicKey |}.
Proof.
  intros Hdec Hlen.
  destruct (derive_steps _ appId _ Hdec Hlen)
    as (h & pub & Hh & _ & Hsk & Hpub & _ & Hres).
  rewrite domainMessage_bytes in Hh.
  exists h, pub. auto.
Qed.

(** C3.  For every identity [deriveAppIdentity] returns and every
    message, [signMessage] with the identity's private key succeeds,
    and [verifySignature] accepts the signature it returns for that
    message under the public key it returns. *)
Theorem C3_sign_verify_roundtrip (masterPrivateKey appId : js_string)
  (id : identity) (message : js_string) :
  deriveAppIdentity ed masterPrivateKey appId = Ok id ->
  exists s,
    signMessage ed (privateKey id) message = Ok s
    /\ verifySignature ed (Signed.signature s) message (Signed.publicKey s)
       = true.
Proof.
  intros Hid.
  apply deriveAppIdentity_Ok in Hid.
  destruct Hid as (k & h & pub & Hdec & Hlen & Hh & Hpub & ->).
  destruct (hmac_sha512_ok k
              (TextEncoder.encode (DOMAIN_SEPARATOR ++ appId)))
    as (h' & Hh' & Hlenh).
  rewrite Hh in Hh'. apply Ok_inj in Hh'. subst h'.
  assert (Hsk : length (firstn 32 h) = 32%nat)
    by (rewrite length_firstn; lia).
  cbn [privateKey].
  destruct (sign_steps _ message _ (bs58_facts.decode_encode _) Hsk)
    as (pub' & sig & Hpub' & Hlenpub & Hsig & Hlensig & Hres).
  eexists. split; [exact Hres|].
  cbn [Signed.signature Signed.publicKey].
  apply verifySignature_true. exists sig, pub'.
  rewrite !bs58_facts.decode_encode. repeat split; try assumption.
  eapply verify_sign; eassumption.
Qed.

(** C6.  For a private key that decodes to 32 bytes, [signMessage]
    returns, beside the signature, the base58 encoding of the ed25519
    public key of that private key; it is the [publicKey] of every
    identity [deriveAppIdentity] returned with this private key. *)
Theorem C6_sign_returns_publicKey (derivedPrivateKey message : js_string)
  (privateKeyBytes : bytes) :
  bs58.decode derivedPrivateKey = Ok privateKeyBytes ->
  length privateKeyBytes = 32%nat ->
  exists publicKeyBytes s,
    getPublicKey ed privateKeyBytes = Ok publicKeyBytes
    /\ signMessage ed derivedPrivateKey message = Ok s
    /\ Signed.publicKey s = bs58.encode publicKeyBytes
    /\ forall masterPrivateKey appId id,
         deriveAppIdentity ed masterPrivateKey appId = Ok id ->
         privateKey id = derivedPrivateKey ->
         Signed.publicKey s = publicKey id.
Proof.
  intros Hdec Hlen.
  destruct (sign_steps _ message _ Hdec Hlen)
    as (pub & sig & Hpub & _ & _ & _ & Hres).
  eexists pub, _. split; [assumption|]. split; [exact Hres|].
  cbn [Signed.publicKey]. split; [reflexivity|].
  intros master appId id Hid Hpriv.
  apply deriveAppIdentity_Ok in Hid.
  destruct Hid as (k & h & pub' & _ & _ & _ & Hpub' & ->).
  cbn [privateKey publicKey] in *. subst derivedPrivateKey.
  rewrite bs58_facts.decode_encode in Hdec. apply Ok_inj in Hdec.
  subst privateKeyBytes. rewrite Hpub in Hpub'. apply Ok_inj in Hpub'.
  subst pub'. reflexivity.
Qed.

(** C10.  [deriveAppIdentity] accepts every [appId], the empty string
    included: on a valid master key it returns an identity whose two
    fields are the base58 encodings of 32 bytes each; for the empty
    [appId] the private key comes from the HMAC of the bare domain
    prefix. *)
Theorem C10_any_appId (masterPrivateKey appId : js_string)
  (masterKeyBytes : bytes) :
  bs58.decode masterPrivateKey = Ok masterKeyBytes ->
  length masterKeyBytes = 32%nat ->
  exists id priv pub,
    deriveAppIdentity ed masterPrivateKey appId = Ok id
    /\ bs58.decode (privateKey id) = Ok priv /\ length priv = 32%nat
    /\ bs58.decode (publicKey id) = Ok pub /\ length pub = 32%nat
    /\ (appId = [] ->
        exists hmacOutput,
          hmac_sha512 ed masterKeyBytes
            (list_byte_of_string "PhantomMask-v1-app:") = Ok hmacOutput
          /\ priv = firstn 32 hmacOutput).
Proof.
  intros Hdec Hlen.
  destruct (derive_steps _ appId _ Hdec Hlen)
    as (h & pub & Hh & _ & Hsk & _ & Hlenpub & Hres).
  eexists _, (firstn 32 h), pub. split; [exact Hres|].
  cbn [privateKey publicKey]. rewrite !bs58_facts.decode_encode.
  repeat split; try assumption.
  intros ->. exists h. split; [|reflexivity].
  rewrite domainMessage_bytes, TextEncoder_facts.encode_nil, app_nil_r
    in Hh.
  exact Hh.
Qed.

(** C8, as the code has it.  [deriveAppIdentity] ends in exactly one of
    three ways: with the decode error when the master key holds a
    character outside the base58 alphabet; with [InvalidKeyLength]
    when it decodes to a length other than 32; and otherwise with a
    complete identity, both fields the base58 encoding of 32 bytes. *)
Theorem C8_failure_modes (masterPrivateKey appId : js_string) :
  (deriveAppIdentity ed masterPrivateKey appId = Err DecodeError
   /\ exists c, In c masterPrivateKey /\ ~ In c bs58.ALPHABET)
  \/ (exists masterKeyBytes,
        bs58.decode masterPrivateKey = Ok masterKeyBytes
        /\ length masterKeyBytes <> 32%nat
        /\ deriveAppIdentity ed masterPrivateKey appId =
           Err (InvalidKeyLength MasterPrivateKey (length masterKeyBytes)))
  \/ (exists masterKeyBytes id priv pub,
        bs58.decode masterPrivateKey = Ok masterKeyBytes
        /\ length masterKeyBytes = 32%nat
        /\ deriveAppIdentity ed masterPrivateKey appId = Ok id
        /\ bs58.decode (privateKey id) = Ok priv /\ length priv = 32%nat
        /\ bs58.decode (publicKey id) = Ok pub /\ length pub = 32%nat).
Proof.
  destruct (bs58.decode masterPrivateKey) as [k|e] eqn:Hdec.
  - destruct (Nat.eq_dec (length k) 32) as [Hlen|Hlen].
    + right. right.
      destruct (derive_steps _ appId _ Hdec Hlen)
        as (h & pub & _ & _ & Hsk & _ & Hlenpub & Hres).
      eexists k, _, (firstn 32 h), pub.
      split; [reflexivity|]. split; [assumption|].
      split; [exact Hres|].
      cbn [privateKey publicKey]. rewrite !bs58_facts.decode_encode.
      auto.
    + right. left. exists k. split; [reflexivity|].
      split; [assumption|].
      apply deriveAppIdentity_short; assumption.
  - left. apply bs58_facts.decode_Err in Hdec.
    destruct Hdec as [-> Hc]. split; [|exact Hc].
    destruct Hc as (c & Hin & Hout).
    assert (Hdec : bs58.decode masterPrivateKey = Err DecodeError)
      by (apply bs58_facts.decode_Err; eauto).
    unfold deriveAppIdentity. rewrite Hdec. reflexivity.
Qed.

End Protocol.

(** ** Properties that hold for every implementation of the primitives *)

(** C4.  [verifySignature] always returns a boolean.  It returns [true]
    exactly when both strings decode, to 64 and to 32 bytes, and ed25519
    accepts the signature for the message under the public key; malformed
    base58, a wrong length, or an exception of the primitive give
    [false]. *)
Theorem C4_verify_total (ed : Noble)
  (signature message publicKey : js_string) :
  (verifySignature ed signature message publicKey = true <->
   exists signatureBytes publicKeyBytes,
     bs58.decode signature = Ok signatureBytes
     /\ bs58.decode publicKey = Ok publicKeyBytes
     /\ length signatureBytes = 64%nat
     /\ length publicKeyBytes = 32%nat
     /\ verify ed signatureBytes (TextEncoder.encode message)
          publicKeyBytes = Ok true)
  /\ (forall e, bs58.decode signature = Err e ->
        verifySignature ed signature message publicKey = false)
  /\ (forall e, bs58.decode publicKey = Err e ->
        verifySignature ed signature message publicKey = false)
  /\ (forall signatureBytes,
        bs58.decode signature = Ok signatureBytes ->
        length signatureBytes <> 64%nat ->
        verifySignature ed signature message publicKey = false)
  /\ (forall publicKeyBytes,
        bs58.decode publicKey = Ok publicKeyBytes ->
        length publicKeyBytes <> 32%nat ->
        verifySignature ed signature message publicKey = false)
  /\ (forall signatureBytes publicKeyBytes e,
        bs58.decode signature = Ok signatureBytes ->
        bs58.decode publicKey = Ok publicKeyBytes ->
        verify ed signatureBytes (TextEncoder.encode message)
          publicKeyBytes = Err e ->
        verifySignature ed signature message publicKey = false).
Proof.
  pose proof (verifySignature_true ed signature message publicKey) as Hiff.
  split; [exact Hiff|].
  assert (Hfalse :
            forall P : Prop,
              (verifySignature ed signature message publicKey = true -> P) ->
              ~ P ->
              verifySignature ed signature message publicKey = false).
  { intros P HP HnP.
    destruct (verifySignature ed signature message publicKey);
      [exfalso; auto|reflexivity]. }
  repeat split.
  - intros e He. eapply Hfalse; [apply Hiff|].
    intros (sb & pb & Hs & _). congruence.
  - intros e He. eapply Hfalse; [apply Hiff|].
    intros (sb & pb & _ & Hp & _). congruence.
  - intros sb0 Hs0 Hlen. eapply Hfalse; [apply Hiff|].
    intros (sb & pb & Hs & _ & Hl & _). congruence.
  - intros pb0 Hp0 Hlen. eapply Hfalse; [apply Hiff|].
    intros (sb & pb & _ & Hp & _ & Hl & _). congruence.
  - intros sb0 pb0 e Hs0 Hp0 He. eapply Hfalse; [apply Hiff|].
    intros (sb & pb & Hs & Hp & _ & _ & Hv). congruence.
Qed.

(** C5.  With a key that decodes to a length other than 32,
    [deriveAppIdentity] and [signMessage] end with [InvalidKeyLength].
    This holds whatever the primitives do, also when each of them would
    throw: the check comes before the first call of a primitive. *)
Theorem C5_length_validation (ed : Noble) (key other : js_string)
  (keyBytes : bytes) :
  bs58.decode key = Ok keyBytes ->
  length keyBytes <> 32%nat ->
  deriveAppIdentity ed key other =
    Err (InvalidKeyLength MasterPrivateKey (length keyBytes))
  /\ signMessage ed key other =
    Err (InvalidKeyLength DerivedPrivateKey (length keyBytes)).
Proof.
  intros Hdec Hlen. split.
  - apply deriveAppIdentity_short; assumption.
  - apply signMessage_short; assumption.
Qed.

(** The five lengths of the length-validation test, with primitives that
    throw when called. *)
Example length_validation_examples :
  Forall (fun '(key, n) =>
            deriveAppIdentity unavailable key (js "test-app")
              = Err (InvalidKeyLength MasterPrivateKey n)
            /\ signMessage unavailable key (js "Test message")
              = Err (InvalidKeyLength DerivedPrivateKey n))
    [ ([], 0%nat);
      (js "2", 1%nat);
      (repeat bs58.LEADER 31, 31%nat);
      (repeat bs58.LEADER 33, 33%nat);
      (repeat bs58.LEADER 64, 64%nat) ].
Proof. repeat constructor. Qed.

(** C9.  A key that holds a character outside the base58 alphabet makes
    [deriveAppIdentity] and [signMessage] end with the decode error,
    which is not an [InvalidKeyLength] error and carries another
    message. *)
Theorem C9_decode_error_distinct (ed : Noble) (key other : js_string)
  (c : N) :
  In c key -> ~ In c bs58.ALPHABET ->
  deriveAppIdentity ed key other = Err DecodeError
  /\ signMessage ed key other = Err DecodeError
  /\ forall role got,
       DecodeError <> InvalidKeyLength role got
       /\ error_message DecodeError
          <> error_message (InvalidKeyLength role got).
Proof.
  intros Hin Hout.
  assert (Hdec : bs58.decode key = Err DecodeError)
    by (apply bs58_facts.decode_Err; eauto).
  unfold deriveAppIdentity, signMessage. rewrite Hdec.
  repeat split; try discriminate.
  destruct role; discriminate.
Qed.

(** Identifiers with the same UTF-8 encoding derive the same identity,
    whatever the primitives are. *)
Lemma deriveAppIdentity_same_encoding (ed : Noble)
  (masterPrivateKey a1 a2 : js_string) :
  TextEncoder.encode a1 = TextEncoder.encode a2 ->
  deriveAppIdentity ed masterPrivateKey a1
  = deriveAppIdentity ed masterPrivateKey a2.
Proof.
  intros E. unfold deriveAppIdentity.
  rewrite !domainMessage_bytes, E. reflexivity.
Qed.

(** ** The properties on concrete inputs *)

Definition zero_bytes : bytes := repeat x00 32.

Lemma zero_key_decodes : bs58.decode zero_key = Ok zero_bytes.
Proof. vm_compute. reflexivity. Qed.

Lemma C1_witness :
  bs58.decode zero_key = Ok zero_bytes
  /\ length zero_bytes = 32%nat
  /\ exists hmacOutput derivedPublicKey,
      hmac_sha512 Model.noble zero_bytes
        (list_byte_of_string "PhantomMask-v1-app:"
           ++ TextEncoder.encode (js "test-app")) = Ok hmacOutput
      /\ length (firstn 32 hmacOutput) = 32%nat
      /\ getPublicKey Model.noble (firstn 32 hmacOutput)
         = Ok derivedPublicKey
      /\ deriveAppIdentity Model.noble zero_key (js "test-app") =
         Ok {| privateKey := bs58.encode (firstn 32 hmacOutput);
               publicKey := bs58.encode derivedPublicKey |}.
Proof.
  split; [exact zero_key_decodes|]. split; [reflexivity|].
  apply (C1_derive_computes Model.noble
           Model_facts.hmac_sha512_ok Model_facts.getPublicKey_ok).
  - exact zero_key_decodes.
  - reflexivity.
Defined.

(** The identity the executable instance derives for "signing-app". *)
Definition signing_identity : identity :=
  Eval vm_compute in
    match deriveAppIdentity Model.noble zero_key (js "signing-app") with
    | Ok id => id
    | Err _ => {| privateKey := []; publicKey := [] |}
    end.

Lemma signing_identity_derived :
  deriveAppIdentity Model.noble zero_key (js "signing-app")
  = Ok signing_identity.
Proof. vm_compute. reflexivity. Qed.

Lemma C3_witness :
  deriveAppIdentity Model.noble zero_key (js "signing-app")
  = Ok signing_identity
  /\ exists s,
      signMessage Model.noble (privateKey signing_identity)
        (js "Test message") = Ok s
      /\ verifySignature Model.noble (Signed.signature s)
           (js "Test message") (Signed.publicKey s) = true.
Proof.
  split; [exact signing_identity_derived|].
  apply (C3_sign_verify_roundtrip Model.noble
           Model_facts.hmac_sha512_ok Model_facts.getPublicKey_ok
           Model_facts.sign_ok Model_facts.verify_sign
           zero_key (js "signing-app")).
  exact signing_identity_derived.
Defined.

Lemma C5_witness :
  bs58.decode (repeat bs58.LEADER 31) = Ok (repeat x00 31)
  /\ deriveAppIdentity unavailable (repeat bs58.LEADER 31) (js "test-app")
     = Err (InvalidKeyLength MasterPrivateKey 31)
  /\ signMessage unavailable (repeat bs58.LEADER 31) (js "test-app")
     = Err (InvalidKeyLength DerivedPrivateKey 31).
Proof.
  assert (Hdec : bs58.decode (repeat bs58.LEADER 31) = Ok (repeat x00 31))
    by (vm_compute; reflexivity).
  split; [exact Hdec|].
  apply (C5_length_validation unavailable (repeat bs58.LEADER 31)
           (js "test-app") (repeat x00 31)).
  - exact Hdec.
  - discriminate.
Defined.

Lemma C6_witness :
  exists publicKeyBytes s,
    getPublicKey Model.noble zero_bytes = Ok publicKeyBytes
    /\ signMessage Model.noble zero_key (js "Test message") = Ok s
    /\ Signed.publicKey s = bs58.encode publicKeyBytes
    /\ forall masterPrivateKey appId id,
         deriveAppIdentity Model.noble masterPrivateKey appId = Ok id ->
         privateKey id = zero_key ->
         Signed.publicKey s = publicKey id.
Proof.
  apply (C6_sign_returns_publicKey Model.noble
           Model_facts.getPublicKey_ok Model_facts.sign_ok
           zero_key (js "Test message") zero_bytes).
  - exact zero_key_decodes.
  - reflexivity.
Defined.

(** C7.  The identifiers "\uD800" and "\uDC00" (each a lone
    surrogate) are different strings, yet [deriveAppIdentity] derives
    the same identity for both, from any master key and with any
    primitives: [TextEncoder] writes each of them as U+FFFD, so the two
    HMAC messages are the same.  With the all-zero master key both calls
    succeed.  This is against "Same wallet + different app ID ->
    different identity" in the documentation of the function. *)
Theorem C7_lone_surrogates_collide :
  [0xD800] <> [0xDC00]
  /\ (forall (ed : Noble) (masterPrivateKey : js_string),
        deriveAppIdentity ed masterPrivateKey [0xD800]
        = deriveAppIdentity ed masterPrivateKey [0xDC00])
  /\ exists id,
      deriveAppIdentity Model.noble zero_key [0xD800] = Ok id
      /\ deriveAppIdentity Model.noble zero_key [0xDC00] = Ok id.
Proof.
  assert (Hsame : forall (ed : Noble) (masterPrivateKey : js_string),
             deriveAppIdentity ed masterPrivateKey [0xD800]
             = deriveAppIdentity ed masterPrivateKey [0xDC00])
    by (intros ed masterPrivateKey;
        apply deriveAppIdentity_same_encoding; reflexivity).
  split; [discriminate|]. split; [exact Hsame|].
  destruct (derive_steps Model.noble
              Model_facts.hmac_sha512_ok Model_facts.getPublicKey_ok
              zero_key [0xD800] zero_bytes zero_key_decodes eq_refl)
    as (h & pub & _ & _ & _ & _ & _ & Hres).
  eexists. split; [exact Hres|]. rewrite <- Hsame. exact Hres.
Qed.

Lemma C8_witness :
  (deriveAppIdentity Model.noble (js "0") (js "test-app") = Err DecodeError
   /\ exists c, In c (js "0") /\ ~ In c bs58.ALPHABET)
  \/ (exists masterKeyBytes,
        bs58.decode (js "0") = Ok masterKeyBytes
        /\ length masterKeyBytes <> 32%nat
        /\ deriveAppIdentity Model.noble (js "0") (js "test-app") =
           Err (InvalidKeyLength MasterPrivateKey (length masterKeyBytes)))
  \/ (exists masterKeyBytes id priv pub,
        bs58.decode (js "0") = Ok masterKeyBytes
        /\ length masterKeyBytes = 32%nat
        /\ deriveAppIdentity Model.noble (js "0") (js "test-app") = Ok id
        /\ bs58.decode (privateKey id) = Ok priv /\ length priv = 32%nat
        /\ bs58.decode (publicKey id) = Ok pub /\ length pub = 32%nat).
Proof.
  exact (C8_failure_modes Model.noble
           Model_facts.hmac_sha512_ok Model_facts.getPublicKey_ok
           (js "0") (js "test-app")).
Defined.

(** A master key with a character outside the alphabet fails, and not
    with [InvalidKeyLength]. *)
Lemma C8_counterexample :
  deriveAppIdentity Model.noble (js "0") (js "test-app") = Err DecodeError
  /\ is_InvalidKeyLength DecodeError = false.
Proof. split; reflexivity. Qed.

Lemma C9_witness :
  In 48 (js "0") /\ ~ In 48 bs58.ALPHABET
  /\ deriveAppIdentity Model.noble (js "0") (js "test-app")
     = Err DecodeError
  /\ signMessage Model.noble (js "0") (js "test-app") = Err DecodeError
  /\ forall role got,
       DecodeError <> InvalidKeyLength role got
       /\ error_message DecodeError
          <> error_message (InvalidKeyLength role got).
Proof.
  assert (Hin : In 48 (js "0")) by (left; reflexivity).
  assert (Hout : ~ In 48 bs58.ALPHABET)
    by (apply bs58_facts.digit_of_char_None; reflexivity).
  split; [exact Hin|]. split; [exact Hout|].
  exact (C9_decode_error_distinct Model.noble (js "0") (js "test-app") 48
           Hin Hout).
Defined.

Lemma C10_witness :
  exists id priv pub,
    deriveAppIdentity Model.noble zero_key [] = Ok id
    /\ bs58.decode (privateKey id) = Ok priv /\ length priv = 32%nat
    /\ bs58.decode (publicKey id) = Ok pub /\ length pub = 32%nat
    /\ ([] = @nil N ->
        exists hmacOutput,
          hmac_sha512 Model.noble zero_bytes
            (list_byte_of_string "PhantomMask-v1-app:") = Ok hmacOutput
          /\ priv = firstn 32 hmacOutput).
Proof.
  apply (C10_any_appId Model.noble
           Model_facts.hmac_sha512_ok Model_facts.getPublicKey_ok
           zero_key [] zero_bytes).
  - exact zero_key_decodes.
  - reflexivity.
Defined.


(* ================================================================== *)
(** * Part IV: more of the core and its callers *)
(* ================================================================== *)

(** ** Well-formed strings and their encoding *)

(** A string of UTF-16 code units in which every surrogate is part of a
    high-low pair: the strings [TextEncoder] encodes without replacing
    anything. *)
Fixpoint well_formed (s : js_string) : bool :=
  match s with
  | [] => true
  | c :: rest =>
      if TextEncoder.is_high c then
        match rest with
        | d :: rest' => TextEncoder.is_low d && well_formed rest'
        | [] => false
        end
      else negb (TextEncoder.is_low c) && (c <? 0x10000)
           && well_formed rest
  end.

Module Utf8_facts.

Import TextEncoder.

Lemma cons_inj {A : Type} (x y : A) (l l' : list A) :
  x :: l = y :: l' -> x = y /\ l = l'.
Proof. intros [= -> ->]. auto. Qed.

Lemma is_high_true (c : N) : is_high c = true <-> 0xD800 <= c <= 0xDBFF.
Proof. unfold is_high. rewrite andb_true_iff, !N.leb_le. tauto. Qed.

Lemma is_low_true (c : N) : is_low c = true <-> 0xDC00 <= c <= 0xDFFF.
Proof. unfold is_low. rewrite andb_true_iff, !N.leb_le. tauto. Qed.

Lemma is_high_false (c : N) : is_high c = false <-> c < 0xD800 \/ 0xDBFF < c.
Proof.
  unfold is_high. rewrite andb_false_iff, !N.leb_gt. tauto.
Qed.

Lemma is_low_false (c : N) : is_low c = false <-> c < 0xDC00 \/ 0xDFFF < c.
Proof.
  unfold is_low. rewrite andb_false_iff, !N.leb_gt. tauto.
Qed.

(** How a well-formed string starts: it is empty, or starts with a code
    unit that is a scalar value by itself, or with a surrogate pair. *)
Inductive head_of : js_string -> Prop :=
| head_nil : head_of []
| head_unit c rest :
    c < 0x10000 -> is_high c = false -> is_low c = false ->
    well_formed rest = true ->
    scalars (c :: rest) = c :: scalars rest ->
    head_of (c :: rest)
| head_pair c d rest :
    is_high c = true -> is_low d = true ->
    well_formed rest = true ->
    scalars (c :: d :: rest)
    = (0x10000 + (c - 0xD800) * 0x400 + (d - 0xDC00)) :: scalars rest ->
    head_of (c :: d :: rest).

Lemma well_formed_head (s : js_string) :
  well_formed s = true -> head_of s.
Proof.
  destruct s as [|c rest]; [constructor|].
  cbn [well_formed scalars].
  destruct (is_high c) eqn:Hh.
  - destruct rest as [|d rest']; [discriminate|].
    intros H. apply andb_true_iff in H. destruct H as [Hl Hwf].
    apply head_pair; try assumption.
    cbn [scalars]. rewrite Hh, Hl. reflexivity.
  - intros H. apply andb_true_iff in H. destruct H as [H Hwf].
    apply andb_true_iff in H. destruct H as [Hl Hlt].
    apply negb_true_iff in Hl. apply N.ltb_lt in Hlt.
    apply head_unit; try assumption.
    cbn [scalars]. rewrite Hh, Hl. reflexivity.
Qed.

(** The scalar values of a well-formed string are code points, and none
    is a surrogate. *)
Definition scalar_value (cp : N) : Prop :=
  cp < 0x110000 /\ (cp < 0xD800 \/ 0xDFFF < cp).

Lemma scalars_well_formed (n : nat) :
  forall s, (length s <= n)%nat -> well_formed s = true ->
            Forall scalar_value (scalars s).
Proof.
  induction n as [|n IH]; intros s Hlen Hwf.
  - destruct s; [constructor|simpl in Hlen; lia].
  - destruct (well_formed_head s Hwf)
      as [|c rest Hc Hh Hl Hrest E|c d rest Hh Hl Hrest E].
    + constructor.
    + rewrite E. constructor.
      * apply is_high_false in Hh. apply is_low_false in Hl.
        unfold scalar_value. lia.
      * apply IH; [simpl in Hlen; lia|assumption].
    + rewrite E. constructor.
      * apply is_high_true in Hh. apply is_low_true in Hl.
        unfold scalar_value. lia.
      * apply IH; [simpl in Hlen; lia|assumption].
Qed.

(** Reading code units as scalar values loses nothing on well-formed
    strings. *)
Lemma scalars_inj (n : nat) :
  forall s1 s2,
    (length s1 <= n)%nat ->
    well_formed s1 = true -> well_formed s2 = true ->
    scalars s1 = scalars s2 -> s1 = s2.
Proof.
  induction n as [|n IH]; intros s1 s2 Hlen Hwf1 Hwf2 E.
  - destruct s1; [|simpl in Hlen; lia].
    destruct (well_formed_head s2 Hwf2) as [|? ? _ _ _ _ E2|? ? ? _ _ _ E2];
      [reflexivity|rewrite E2 in E; discriminate
      |rewrite E2 in E; discriminate].
  - destruct (well_formed_head s1 Hwf1)
      as [|c1 r1 Hc1 Hh1 Hl1 Hr1 E1|c1 d1 r1 Hh1 Hl1 Hr1 E1];
    destruct (well_formed_head s2 Hwf2)
      as [|c2 r2 Hc2 Hh2 Hl2 Hr2 E2|c2 d2 r2 Hh2 Hl2 Hr2 E2];
    try rewrite E1 in E; try rewrite E2 in E;
    try discriminate; try reflexivity.
    + apply cons_inj in E. destruct E as [Ec Er]. subst c2. f_equal.
      apply IH; [simpl in Hlen; lia|assumption|assumption|assumption].
    + apply cons_inj in E. destruct E as [Ec Er]. exfalso.
      apply is_high_true in Hh2. apply is_low_true in Hl2. lia.
    + apply cons_inj in E. destruct E as [Ec Er]. exfalso.
      apply is_high_true in Hh1. apply is_low_true in Hl1. lia.
    + apply cons_inj in E. destruct E as [Ec Er].
      apply is_high_true in Hh1. apply is_low_true in Hl1.
      apply is_high_true in Hh2. apply is_low_true in Hl2.
      assert (c1 = c2) by lia. assert (d1 = d2) by lia. subst c2 d2.
      do 2 f_equal.
      apply IH; [simpl in Hlen; lia|assumption|assumption|assumption].
Qed.

Lemma byte_of_N_inj (x y : N) :
  x < 256 -> y < 256 -> byte_of_N x = byte_of_N y -> x = y.
Proof.
  intros Hx Hy E. apply (f_equal Byte.to_N) in E.
  rewrite !to_N_byte_of_N in E by assumption. exact E.
Qed.

(** The quotients and remainders the UTF-8 bytes of [cp] are made of. *)
Lemma utf8_parts (cp : N) :
  exists q1 r1 q2 r2 q3 r3,
    cp = 0x40 * q1 + r1 /\ r1 < 0x40
    /\ q1 = 0x40 * q2 + r2 /\ r2 < 0x40
    /\ q2 = 0x40 * q3 + r3 /\ r3 < 0x40
    /\ cp / 0x40 = q1 /\ cp mod 0x40 = r1
    /\ cp / 0x1000 = q2 /\ (cp / 0x40) mod 0x40 = r2
    /\ cp / 0x40000 = q3 /\ (cp / 0x1000) mod 0x40 = r3.
Proof.
  exists (cp / 0x40), (cp mod 0x40),
         (cp / 0x40 / 0x40), ((cp / 0x40) mod 0x40),
         (cp / 0x40 / 0x40 / 0x40), ((cp / 0x40 / 0x40) mod 0x40).
  assert (E2 : cp / 0x1000 = cp / 0x40 / 0x40)
    by (rewrite N.Div0.div_div; reflexivity).
  assert (E3 : cp / 0x40000 = cp / 0x40 / 0x40 / 0x40)
    by (rewrite !N.Div0.div_div; reflexivity).
  rewrite E2, E3.
  repeat split;
    try (apply N.div_mod; discriminate);
    try (apply N.mod_lt; discriminate).
Qed.

(** No UTF-8 sequence of a code point starts another one: the first
    byte tells the length, and the bytes tell the code point. *)
Lemma utf8_prefix_free (a b : N) (l1 l2 : bytes) :
  a < 0x110000 -> b < 0x110000 ->
  utf8 a ++ l1 = utf8 b ++ l2 -> a = b /\ l1 = l2.
Proof.
  intros Ha Hb. unfold utf8.
  destruct (utf8_parts a)
    as (qa1 & ra1 & qa2 & ra2 & qa3 & ra3 & Ea1 & Hra1 & Ea2 & Hra2
        & Ea3 & Hra3 & -> & -> & -> & -> & -> & ->).
  destruct (utf8_parts b)
    as (qb1 & rb1 & qb2 & rb2 & qb3 & rb3 & Eb1 & Hrb1 & Eb2 & Hrb2
        & Eb3 & Hrb3 & -> & -> & -> & -> & -> & ->).
  destruct (N.ltb_spec a 0x80); [|destruct (N.ltb_spec a 0x800);
    [|destruct (N.ltb_spec a 0x10000)]];
  (destruct (N.ltb_spec b 0x80); [|destruct (N.ltb_spec b 0x800);
    [|destruct (N.ltb_spec b 0x10000)]]);
  cbn [app]; intros E;
  repeat match goal with
         | H : _ :: _ = _ :: _ |- _ =>
             apply cons_inj in H; destruct H as [? H]
         end;
  repeat match goal with
         | H : byte_of_N _ = byte_of_N _ |- _ =>
             apply byte_of_N_inj in H; [|lia|lia]
         end;
  first [split; [lia|assumption]|exfalso; lia].
Qed.

Lemma flat_map_utf8_inj (cps1 : list N) :
  forall cps2,
    Forall scalar_value cps1 -> Forall scalar_value cps2 ->
    flat_map utf8 cps1 = flat_map utf8 cps2 -> cps1 = cps2.
Proof.
  assert (Hne : forall cp rest, utf8 cp ++ rest <> [])
    by (intros cp rest; unfold utf8;
        destruct (cp <? 0x80); [discriminate|];
        destruct (cp <? 0x800); [discriminate|];
        destruct (cp <? 0x10000); discriminate).
  induction cps1 as [|a cps1 IH]; intros cps2 H1 H2 E.
  - destruct cps2 as [|b cps2]; [reflexivity|].
    cbn [flat_map] in E. symmetry in E. apply Hne in E. contradiction.
  - destruct cps2 as [|b cps2].
    + cbn [flat_map] in E. apply Hne in E. contradiction.
    + inversion H1 as [|? ? [Ha _] H1']; subst.
      inversion H2 as [|? ? [Hb _] H2']; subst.
      cbn [flat_map] in E.
      apply utf8_prefix_free in E; [|assumption|assumption].
      destruct E as [-> E]. f_equal. apply IH; assumption.
Qed.

(** [TextEncoder.encode] is injective on well-formed strings. *)
Lemma text_encode_inj (s1 s2 : js_string) :
  well_formed s1 = true -> well_formed s2 = true ->
  encode s1 = encode s2 -> s1 = s2.
Proof.
  intros H1 H2 E. unfold encode in E.
  apply flat_map_utf8_inj in E.
  - apply (scalars_inj (length s1)); auto.
  - apply (scalars_well_formed (length s1)); auto.
  - apply (scalars_well_formed (length s2)); auto.
Qed.

End Utf8_facts.

(** ** The domain message of [deriveAppIdentity] *)

(** The code units that are scalar values by themselves. *)
Definition plain (c : N) : bool :=
  negb (TextEncoder.is_high c) && negb (TextEncoder.is_low c)
  && (c <? 0x10000).

Lemma well_formed_app (s1 s2 : js_string) :
  forallb plain s1 = true -> well_formed (s1 ++ s2) = well_formed s2.
Proof.
  induction s1 as [|c s1 IH]; [reflexivity|].
  cbn [forallb app well_formed]. intros H.
  apply andb_true_iff in H. destruct H as [Hc Hs1].
  unfold plain in Hc.
  apply andb_true_iff in Hc. destruct Hc as [Hc Hlt].
  apply andb_true_iff in Hc. destruct Hc as [Hh Hl].
  apply negb_true_iff in Hh. rewrite Hh, Hl, Hlt, IH by assumption.
  reflexivity.
Qed.

Lemma DOMAIN_SEPARATOR_plain : forallb plain DOMAIN_SEPARATOR = true.
Proof. reflexivity. Qed.

(** X1.  Two different well-formed identifiers never give the same HMAC
    message: prefixing the domain separator and encoding in UTF-8 loses
    nothing. *)
Theorem domain_message_distinct (a1 a2 : js_string) :
  well_formed a1 = true -> well_formed a2 = true -> a1 <> a2 ->
  TextEncoder.encode (DOMAIN_SEPARATOR ++ a1)
  <> TextEncoder.encode (DOMAIN_SEPARATOR ++ a2).
Proof.
  intros H1 H2 Hne E. apply Hne.
  apply Utf8_facts.text_encode_inj in E.
  - apply app_inv_head in E. exact E.
  - rewrite well_formed_app; [assumption|apply DOMAIN_SEPARATOR_plain].
  - rewrite well_formed_app; [assumption|apply DOMAIN_SEPARATOR_plain].
Qed.

Lemma domain_message_distinct_witness :
  TextEncoder.encode (DOMAIN_SEPARATOR ++ js "app-alpha")
  <> TextEncoder.encode (DOMAIN_SEPARATOR ++ js "app-beta").
Proof.
  apply (domain_message_distinct (js "app-alpha") (js "app-beta")).
  - reflexivity.
  - reflexivity.
  - discriminate.
Defined.




Section MoreOfTheCore.

Variable ed : Noble.

Hypothesis hmac_sha512_ok : forall key message,
  exists h, hmac_sha512 ed key message = Ok h /\ length h = 64%nat.
Hypothesis getPublicKey_ok : forall priv,
  length priv = 32%nat ->
  exists pub, getPublicKey ed priv = Ok pub /\ length pub = 32%nat.
Hypothesis sign_ok : forall message priv,
  length priv = 32%nat ->
  exists sig, sign ed message priv = Ok sig /\ length sig = 64%nat.
Hypothesis verify_sign : forall message priv pub sig,
  getPublicKey ed priv = Ok pub ->
  sign ed message priv = Ok sig ->
  verify ed sig message pub = Ok true.

(** X3.  [signMessage] ends in exactly one of three ways: with the decode
    error when the key holds a character outside the base58 alphabet;
    with [InvalidKeyLength] when the key decodes to a length other than
    32; and otherwise with a signature that decodes to 64 bytes and a
    public key that decodes to 32 bytes. *)
Theorem signMessage_outcomes (derivedPrivateKey message : js_string) :
  (signMessage ed derivedPrivateKey message = Err DecodeError
   /\ exists c, In c derivedPrivateKey /\ ~ In c bs58.ALPHABET)
  \/ (exists privateKeyBytes,
        bs58.decode derivedPrivateKey = Ok privateKeyBytes
        /\ length privateKeyBytes <> 32%nat
        /\ signMessage ed derivedPrivateKey message =
           Err (InvalidKeyLength DerivedPrivateKey (length privateKeyBytes)))
  \/ (exists privateKeyBytes s sig pub,
        bs58.decode derivedPrivateKey = Ok privateKeyBytes
        /\ length privateKeyBytes = 32%nat
        /\ signMessage ed derivedPrivateKey message = Ok s
        /\ bs58.decode (Signed.signature s) = Ok sig
        /\ length sig = 64%nat
        /\ bs58.decode (Signed.publicKey s) = Ok pub
        /\ length pub = 32%nat).
Proof.
  destruct (bs58.decode derivedPrivateKey) as [k|e] eqn:Hdec.
  - destruct (Nat.eq_dec (length k) 32) as [Hlen|Hlen].
    + right. right.
      destruct (sign_steps ed getPublicKey_ok sign_ok _ message _ Hdec Hlen)
        as (pub & sig & _ & Hlenpub & _ & Hlensig & Hres).
      eexists k, _, sig, pub.
      split; [reflexivity|]. split; [assumption|]. split; [exact Hres|].
      cbn [Signed.signature Signed.publicKey].
      rewrite !bs58_facts.decode_encode. auto.
    + right. left. exists k. split; [reflexivity|].
      split; [assumption|]. apply signMessage_short; assumption.
  - left. apply bs58_facts.decode_Err in Hdec.
    destruct Hdec as [-> Hc]. split; [|exact Hc].
    destruct Hc as (c & Hin & Hout).
    assert (Hdec : bs58.decode derivedPrivateKey = Err DecodeError)
      by (apply bs58_facts.decode_Err; eauto).
    unfold signMessage. rewrite Hdec. reflexivity.
Qed.

(** X4.  With any key that decodes to 32 bytes (derived or not), a
    signature made for a message is accepted for every message with the
    same UTF-8 encoding, under the public key returned with it; the
    message itself is one of them. *)
Theorem sign_then_verify_same_encoding
  (derivedPrivateKey message1 message2 : js_string)
  (privateKeyBytes : bytes) :
  bs58.decode derivedPrivateKey = Ok privateKeyBytes ->
  length privateKeyBytes = 32%nat ->
  TextEncoder.encode message1 = TextEncoder.encode message2 ->
  exists s,
    signMessage ed derivedPrivateKey message1 = Ok s
    /\ verifySignature ed (Signed.signature s) message2 (Signed.publicKey s)
       = true.
Proof.
  intros Hdec Hlen E.
  destruct (sign_steps ed getPublicKey_ok sign_ok _ message1 _ Hdec Hlen)
    as (pub & sig & Hpub & Hlenpub & Hsig & Hlensig & Hres).
  eexists. split; [exact Hres|].
  cbn [Signed.signature Signed.publicKey].
  apply verifySignature_true. exists sig, pub.
  rewrite !bs58_facts.decode_encode, <- E.
  repeat split; try assumption.
  eapply verify_sign; eassumption.
Qed.

(** X5.  A derived private key is itself a valid master key: deriving
    from it succeeds for every identifier. *)
Theorem derived_key_is_master_key
  (masterPrivateKey appId appId' : js_string) (id : identity) :
  deriveAppIdentity ed masterPrivateKey appId = Ok id ->
  exists id', deriveAppIdentity ed (privateKey id) appId' = Ok id'.
Proof.
  intros Hid. apply deriveAppIdentity_Ok in Hid.
  destruct Hid as (k & h & pub & _ & _ & Hh & _ & ->).
  destruct (hmac_sha512_ok k
              (TextEncoder.encode (DOMAIN_SEPARATOR ++ appId)))
    as (h' & Hh' & Hlenh).
  rewrite Hh in Hh'. apply Ok_inj in Hh'. subst h'.
  assert (Hsk : length (firstn 32 h) = 32%nat)
    by (rewrite length_firstn; lia).
  cbn [privateKey].
  destruct (derive_steps ed hmac_sha512_ok getPublicKey_ok
              _ appId' _ (bs58_facts.decode_encode _) Hsk)
    as (h2 & pub2 & _ & _ & _ & _ & _ & Hres).
  eexists. exact Hres.
Qed.

End MoreOfTheCore.

Lemma signMessage_outcomes_witness :
  (signMessage Model.noble zero_key (js "Test message") = Err DecodeError
   /\ exists c, In c zero_key /\ ~ In c bs58.ALPHABET)
  \/ (exists privateKeyBytes,
        bs58.decode zero_key = Ok privateKeyBytes
        /\ length privateKeyBytes <> 32%nat
        /\ signMessage Model.noble zero_key (js "Test message") =
           Err (InvalidKeyLength DerivedPrivateKey (length privateKeyBytes)))
  \/ (exists privateKeyBytes s sig pub,
        bs58.decode zero_key = Ok privateKeyBytes
        /\ length privateKeyBytes = 32%nat
        /\ signMessage Model.noble zero_key (js "Test message") = Ok s
        /\ bs58.decode (Signed.signature s) = Ok sig
        /\ length sig = 64%nat
        /\ bs58.decode (Signed.publicKey s) = Ok pub
        /\ length pub = 32%nat).
Proof.
  exact (signMessage_outcomes Model.noble
           Model_facts.getPublicKey_ok Model_facts.sign_ok
           zero_key (js "Test message")).
Defined.

Lemma sign_then_verify_same_encoding_witness :
  [0xD800] <> [0xDC00]
  /\ exists s,
      signMessage Model.noble zero_key [0xD800] = Ok s
      /\ verifySignature Model.noble (Signed.signature s) [0xDC00]
           (Signed.publicKey s) = true.
Proof.
  split; [discriminate|].
  apply (sign_then_verify_same_encoding Model.noble
           Model_facts.getPublicKey_ok Model_facts.sign_ok
           Model_facts.verify_sign
           zero_key [0xD800] [0xDC00] zero_bytes).
  - exact zero_key_decodes.
  - reflexivity.
  - reflexivity.
Defined.

Lemma derived_key_is_master_key_witness :
  exists id',
    deriveAppIdentity Model.noble (privateKey signing_identity)
      (js "nested-app") = Ok id'.
Proof.
  apply (derived_key_is_master_key Model.noble
           Model_facts.hmac_sha512_ok Model_facts.getPublicKey_ok
           zero_key (js "signing-app") (js "nested-app")
           signing_identity).
  exact signing_identity_derived.
Defined.


(** ** The route handlers [app/api/derive/route.ts] and
       [app/api/sign/route.ts] *)

(** A JavaScript value that [JSON.parse] can return.  Numbers are IEEE
    doubles; the properties of an object are a list of distinct keys
    with their values. *)
#[warnings="-register-all"]
Inductive json : Type :=
| JNull
| JBool (b : bool)
| JNumber (x : spec_float)
| JString (s : js_string)
| JArray (items : list json)
| JObject (props : list (js_string * json)).

Definition js_string_eqb (a b : js_string) : bool :=
  if list_eq_dec N.eq_dec a b then true else false.

Fixpoint lookup (key : js_string) (props : list (js_string * json))
  : option json :=
  match props with
  | [] => None
  | (k, v) :: rest => if js_string_eqb k key then Some v else lookup key rest
  end.

(** [value.key] for a key that is no built-in property (as the four keys
    the handlers read, and "privateKey"); [None] is [undefined]. *)
Definition property (value : json) (key : js_string) : option json :=
  match value with
  | JObject props => lookup key props
  | _ => None
  end.

(** [!!v] *)
Definition truthy (v : option json) : bool :=
  match v with
  | None => false
  | Some JNull => false
  | Some (JBool b) => b
  | Some (JNumber (S754_zero _)) => false
  | Some (JNumber S754_nan) => false
  | Some (JNumber _) => true
  | Some (JString s) => negb (length s =? 0)%nat
  | Some (JArray _) => true
  | Some (JObject _) => true
  end.

(** [typeof v === 'string'] *)
Definition is_string (v : option json) : bool :=
  match v with
  | Some (JString _) => true
  | _ => false
  end.

(** The string a value is once [typeof v === 'string'] has passed. *)
Definition as_string (v : option json) : js_string :=
  match v with
  | Some (JString s) => s
  | _ => []
  end.

(** [const { first, ... } = body]: throws a [TypeError] when [body] is
    [null] (the message is the one of V8, the engine of Node.js). *)
Definition destructure (body : json) (first : string) : result json :=
  match body with
  | JNull =>
      Err (Unknown ("Cannot destructure property '" ++ first
                    ++ "' of 'body' as it is null."))
  | _ => Ok body
  end.

(** What [NextResponse.json(data, { status })] answers. *)
Record response : Type := {
  status : N;
  body : json
}.

Definition error_body (message : js_string) : json :=
  JObject [(js "error", JString message)].

(** [app/api/derive/route.ts].  [request_json] is what
    [await request.json()] gives: the parsed body, or the exception of a
    body that is not JSON. *)
Module derive_route.

Definition POST (ed : Noble) (request_json : result json) : response :=
  match
    (let* body := request_json in
     let* body := destructure body "masterPrivateKey" in
     let masterPrivateKey := property body (js "masterPrivateKey") in
     let appId := property body (js "appId") in
     if negb (truthy masterPrivateKey) || negb (is_string masterPrivateKey)
     then
       Ok {| status := 400;
             body := error_body (js "Invalid request: masterPrivateKey is required and must be a string") |}
     else if negb (truthy appId) || negb (is_string appId)
     then
       Ok {| status := 400;
             body := error_body (js "Invalid request: appId is required and must be a string") |}
     else
       let* identity :=
         deriveAppIdentity ed (as_string masterPrivateKey)
           (as_string appId) in
       Ok {| status := 200;
             body := JObject [(js "publicKey",
                               JString (publicKey identity))] |})
  with
  | Ok answer => answer
  | Err error =>
      let errorMessage := js (error_message error) in
      {| status := 500;
         body := error_body (js "Derivation failed: " ++ errorMessage) |}
  end.

End derive_route.

(** [app/api/sign/route.ts]. *)
Module sign_route.

Definition POST (ed : Noble) (request_json : result json) : response :=
  match
    (let* body := request_json in
     let* body := destructure body "derivedPrivateKey" in
     let derivedPrivateKey := property body (js "derivedPrivateKey") in
     let message := property body (js "message") in
     if negb (truthy derivedPrivateKey)
        || negb (is_string derivedPrivateKey)
     then
       Ok {| status := 400;
             body := error_body (js "Invalid request: derivedPrivateKey is required and must be a string") |}
     else if negb (truthy message) || negb (is_string message)
     then
       Ok {| status := 400;
             body := error_body (js "Invalid request: message is required and must be a string") |}
     else
       let* result :=
         signMessage ed (as_string derivedPrivateKey)
           (as_string message) in
       Ok {| status := 200;
             body := JObject [(js "signature",
                               JString (Signed.signature result));
                              (js "publicKey",
                               JString (Signed.publicKey result))] |})
  with
  | Ok answer => answer
  | Err error =>
      let errorMessage := js (error_message error) in
      {| status := 500;
         body := error_body (js "Signing failed: " ++ errorMessage) |}
  end.

End sign_route.

(** *** What the handlers answer *)

(** A field passes the check [!v || typeof v !== 'string'] exactly when
    it is a non-empty string. *)
Lemma field_accepted (v : option json) :
  negb (truthy v) || negb (is_string v) = false <->
  exists s, v = Some (JString s) /\ s <> [].
Proof.
  split.
  - destruct v as [[| | |s| |]|]; cbn [truthy is_string negb orb];
      try discriminate;
      try (rewrite orb_true_r; discriminate).
    destruct s as [|c s]; [discriminate|]. intros _.
    exists (c :: s). split; [reflexivity|discriminate].
  - intros (s & -> & Hs). destruct s as [|c s]; [contradiction|].
    reflexivity.
Qed.

Lemma field_rejected (v : option json) :
  negb (truthy v) || negb (is_string v) = true <->
  ~ exists s, v = Some (JString s) /\ s <> [].
Proof.
  rewrite <- field_accepted.
  destruct (negb (truthy v) || negb (is_string v)); split;
    intros; try reflexivity; try discriminate; try congruence.
Qed.

Lemma destructure_Ok (value : json) (first : string) :
  value <> JNull -> destructure value first = Ok value.
Proof. destruct value; intros H; try reflexivity. contradiction. Qed.

(** The derive handler on a request whose two fields pass the checks. *)
Lemma derive_POST_accepted (ed : Noble) (value : json)
  (masterPrivateKey appId : js_string) :
  property value (js "masterPrivateKey") = Some (JString masterPrivateKey) ->
  masterPrivateKey <> [] ->
  property value (js "appId") = Some (JString appId) ->
  appId <> [] ->
  derive_route.POST ed (Ok value) =
  match deriveAppIdentity ed masterPrivateKey appId with
  | Ok identity =>
      {| status := 200;
         body := JObject [(js "publicKey", JString (publicKey identity))] |}
  | Err error =>
      {| status := 500;
         body := error_body (js "Derivation failed: "
                               ++ js (error_message error)) |}
  end.
Proof.
  intros Hk Hk' Ha Ha'. unfold derive_route.POST. cbn [bind].
  rewrite destructure_Ok by (intros ->; discriminate). cbn [bind].
  rewrite Hk, Ha.
  rewrite (proj2 (field_accepted _)) by eauto.
  rewrite (proj2 (field_accepted _)) by eauto.
  cbn [as_string].
  destruct (deriveAppIdentity ed masterPrivateKey appId); reflexivity.
Qed.

Lemma sign_POST_accepted (ed : Noble) (value : json)
  (derivedPrivateKey message : js_string) :
  property value (js "derivedPrivateKey")
  = Some (JString derivedPrivateKey) ->
  derivedPrivateKey <> [] ->
  property value (js "message") = Some (JString message) ->
  message <> [] ->
  sign_route.POST ed (Ok value) =
  match signMessage ed derivedPrivateKey message with
  | Ok result =>
      {| status := 200;
         body := JObject [(js "signature",
                           JString (Signed.signature result));
                          (js "publicKey",
                           JString (Signed.publicKey result))] |}
  | Err error =>
      {| status := 500;
         body := error_body (js "Signing failed: "
                               ++ js (error_message error)) |}
  end.
Proof.
  intros Hk Hk' Hm Hm'. unfold sign_route.POST. cbn [bind].
  rewrite destructure_Ok by (intros ->; discriminate). cbn [bind].
  rewrite Hk, Hm.
  rewrite (proj2 (field_accepted _)) by eauto.
  rewrite (proj2 (field_accepted _)) by eauto.
  cbn [as_string].
  destruct (signMessage ed derivedPrivateKey message); reflexivity.
Qed.

Lemma encode_nonempty (source : bytes) :
  source <> [] -> bs58.encode source <> [].
Proof.
  intros Hne E.
  pose proof (bs58_facts.decode_encode source) as H.
  rewrite E in H. apply Ok_inj in H. auto.
Qed.

(** X6.  Whatever the request, the derive handler answers with an object
    that has a single property: [error] (status 400 or 500), or
    [publicKey] (status 200), which then is the public key of the
    identity derived from the two fields of the request.  The answer
    has no other property, so none for the derived private key. *)
Theorem derive_route_answer_shape (ed : Noble) (request_json : result json) :
  (exists message,
      body (derive_route.POST ed request_json) = error_body message
      /\ (status (derive_route.POST ed request_json) = 400
          \/ status (derive_route.POST ed request_json) = 500))
  \/ (exists value masterPrivateKey appId identity,
        request_json = Ok value
        /\ property value (js "masterPrivateKey")
           = Some (JString masterPrivateKey)
        /\ property value (js "appId") = Some (JString appId)
        /\ deriveAppIdentity ed masterPrivateKey appId = Ok identity
        /\ derive_route.POST ed request_json =
           {| status := 200;
              body := JObject [(js "publicKey",
                                JString (publicKey identity))] |}).
Proof.
  destruct request_json as [value|e].
  2:{ left. eexists. split; [reflexivity|]. right. reflexivity. }
  destruct (negb (truthy (property value (js "masterPrivateKey")))
            || negb (is_string (property value (js "masterPrivateKey"))))
    eqn:Hk.
  { left. unfold derive_route.POST. cbn [bind].
    destruct value; cbn [destructure bind];
      try (rewrite Hk; eexists; split; [reflexivity|left; reflexivity]).
    eexists. split; [reflexivity|right; reflexivity]. }
  destruct (negb (truthy (property value (js "appId")))
            || negb (is_string (property value (js "appId")))) eqn:Ha.
  { left. unfold derive_route.POST. cbn [bind].
    destruct value; cbn [destructure bind];
      try (rewrite Hk, Ha; eexists; split; [reflexivity|left; reflexivity]).
    eexists. split; [reflexivity|right; reflexivity]. }
  apply field_accepted in Hk. destruct Hk as (k & Hk & Hk').
  apply field_accepted in Ha. destruct Ha as (a & Ha & Ha').
  rewrite (derive_POST_accepted ed value k a Hk Hk' Ha Ha').
  destruct (deriveAppIdentity ed k a) as [identity|e] eqn:Hid.
  - right. exists value, k, a, identity. auto.
  - left. eexists. split; [reflexivity|right; reflexivity].
Qed.

(** X7.  The derive handler answers 400 exactly when the body is parsed,
    is not [null], and one of the two fields is missing, is no string or
    is the empty string; the sign handler likewise.  This does not
    depend on the primitives. *)
Theorem bad_request_exactly (ed : Noble) (request_json : result json) :
  (status (derive_route.POST ed request_json) = 400 <->
   exists value,
     request_json = Ok value /\ value <> JNull
     /\ ~ ((exists s, property value (js "masterPrivateKey")
                      = Some (JString s) /\ s <> [])
           /\ (exists s, property value (js "appId")
                         = Some (JString s) /\ s <> [])))
  /\ (status (sign_route.POST ed request_json) = 400 <->
      exists value,
        request_json = Ok value /\ value <> JNull
        /\ ~ ((exists s, property value (js "derivedPrivateKey")
                         = Some (JString s) /\ s <> [])
              /\ (exists s, property value (js "message")
                            = Some (JString s) /\ s <> []))).
Proof.
  split.
  - destruct request_json as [value|e].
    2:{ split; [discriminate|]. intros (? & [=] & _). }
    destruct (negb (truthy (property value (js "masterPrivateKey")))
              || negb (is_string (property value (js "masterPrivateKey"))))
      eqn:Hk.
    { destruct value;
        try (unfold derive_route.POST; cbn [bind destructure];
             rewrite Hk; split; [intros _|reflexivity];
             eexists; split; [reflexivity|]; split; [discriminate|];
             apply field_rejected in Hk; tauto).
      split; [discriminate|]. intros (? & [= <-] & Hnull & _).
      contradiction. }
    destruct (negb (truthy (property value (js "appId")))
              || negb (is_string (property value (js "appId")))) eqn:Ha.
    { destruct value;
        try (unfold derive_route.POST; cbn [bind destructure];
             rewrite Hk, Ha; split; [intros _|reflexivity];
             eexists; split; [reflexivity|]; split; [discriminate|];
             apply field_rejected in Ha; tauto).
      split; [discriminate|]. intros (? & [= <-] & Hnull & _).
      contradiction. }
    apply field_accepted in Hk. apply field_accepted in Ha.
    destruct Hk as (k & Hk & Hk'). destruct Ha as (a & Ha & Ha').
    rewrite (derive_POST_accepted ed value k a Hk Hk' Ha Ha').
    split.
    + destruct (deriveAppIdentity ed k a); discriminate.
    + intros (? & [= <-] & _ & Hnot). exfalso. apply Hnot.
      split; eauto.
  - destruct request_json as [value|e].
    2:{ split; [discriminate|]. intros (? & [=] & _). }
    destruct (negb (truthy (property value (js "derivedPrivateKey")))
              || negb (is_string (property value (js "derivedPrivateKey"))))
      eqn:Hk.
    { destruct value;
        try (unfold sign_route.POST; cbn [bind destructure];
             rewrite Hk; split; [intros _|reflexivity];
             eexists; split; [reflexivity|]; split; [discriminate|];
             apply field_rejected in Hk; tauto).
      split; [discriminate|]. intros (? & [= <-] & Hnull & _).
      contradiction. }
    destruct (negb (truthy (property value (js "message")))
              || negb (is_string (property value (js "message")))) eqn:Hm.
    { destruct value;
        try (unfold sign_route.POST; cbn [bind destructure];
             rewrite Hk, Hm; split; [intros _|reflexivity];
             eexists; split; [reflexivity|]; split; [discriminate|];
             apply field_rejected in Hm; tauto).
      split; [discriminate|]. intros (? & [= <-] & Hnull & _).
      contradiction. }
    apply field_accepted in Hk. apply field_accepted in Hm.
    destruct Hk as (k & Hk & Hk'). destruct Hm as (m & Hm & Hm').
    rewrite (sign_POST_accepted ed value k m Hk Hk' Hm Hm').
    split.
    + destruct (signMessage ed k m); discriminate.
    + intros (? & [= <-] & _ & Hnot). exfalso. apply Hnot.
      split; eauto.
Qed.

Lemma js_app (s1 s2 : string) : js (s1 ++ s2) = js s1 ++ js s2.
Proof.
  unfold js. rewrite <- map_app. f_equal.
  induction s1 as [|c s1 IH]; [reflexivity|].
  cbn [String.append list_ascii_of_string app]. rewrite IH. reflexivity.
Qed.

Lemma deriveAppIdentity_bad_character (ed : Noble)
  (masterPrivateKey appId : js_string) (c : N) :
  In c masterPrivateKey -> ~ In c bs58.ALPHABET ->
  deriveAppIdentity ed masterPrivateKey appId = Err DecodeError.
Proof.
  intros Hin Hout.
  assert (Hdec : bs58.decode masterPrivateKey = Err DecodeError)
    by (apply bs58_facts.decode_Err; eauto).
  unfold deriveAppIdentity. rewrite Hdec. reflexivity.
Qed.

Lemma decodes_nonempty (source : js_string) (buffer : bytes) :
  bs58.decode source = Ok buffer -> buffer <> [] -> source <> [].
Proof.
  intros Hdec Hne ->. apply Ok_inj in Hdec. auto.
Qed.

(** X8.  A master key that is a non-empty string but no valid key is a
    server error, not a bad request: a wrong length and a character
    outside the alphabet both give status 500 and differ in the message
    only. *)
Theorem derive_route_key_errors (ed : Noble) (value : json)
  (masterPrivateKey appId : js_string) :
  property value (js "masterPrivateKey") = Some (JString masterPrivateKey) ->
  masterPrivateKey <> [] ->
  property value (js "appId") = Some (JString appId) ->
  appId <> [] ->
  (forall masterKeyBytes,
      bs58.decode masterPrivateKey = Ok masterKeyBytes ->
      length masterKeyBytes <> 32%nat ->
      derive_route.POST ed (Ok value) =
      {| status := 500;
         body := error_body
                   (js "Derivation failed: Master private key must be 32 bytes, got "
                      ++ js (decimal (length masterKeyBytes))) |})
  /\ (forall c,
        In c masterPrivateKey -> ~ In c bs58.ALPHABET ->
        derive_route.POST ed (Ok value) =
        {| status := 500;
           body := error_body
                     (js "Derivation failed: Non-base58 character") |}).
Proof.
  intros Hk Hk' Ha Ha'.
  rewrite (derive_POST_accepted ed value _ _ Hk Hk' Ha Ha'). split.
  - intros k Hdec Hlen.
    rewrite (deriveAppIdentity_short ed _ appId _ Hdec Hlen).
    cbn [error_message role_name]. rewrite !js_app, app_assoc.
    reflexivity.
  - intros c Hin Hout.
    rewrite (deriveAppIdentity_bad_character ed _ appId c Hin Hout).
    reflexivity.
Qed.

(** A request body with the two fields of the derive handler, and one
    with the two fields of the sign handler. *)
Definition derive_request (masterPrivateKey appId : js_string) : json :=
  JObject [(js "masterPrivateKey", JString masterPrivateKey);
           (js "appId", JString appId)].

Definition sign_request (derivedPrivateKey message : js_string) : json :=
  JObject [(js "derivedPrivateKey", JString derivedPrivateKey);
           (js "message", JString message)].

Lemma derive_route_key_errors_witness :
  derive_route.POST unavailable
    (Ok (derive_request (repeat bs58.LEADER 31) (js "test-app"))) =
  {| status := 500;
     body := error_body
               (js "Derivation failed: Master private key must be 32 bytes, got 31") |}
  /\ derive_route.POST unavailable
       (Ok (derive_request (repeat bs58.LEADER 31 ++ js "0")
              (js "test-app"))) =
     {| status := 500;
        body := error_body (js "Derivation failed: Non-base58 character") |}.
Proof.
  split.
  - apply (proj1 (derive_route_key_errors unavailable
                    (derive_request (repeat bs58.LEADER 31) (js "test-app"))
                    (repeat bs58.LEADER 31) (js "test-app")
                    eq_refl ltac:(discriminate)
                    eq_refl ltac:(discriminate))
             (repeat x00 31)).
    + vm_compute. reflexivity.
    + discriminate.
  - apply (proj2 (derive_route_key_errors unavailable
                    (derive_request (repeat bs58.LEADER 31 ++ js "0")
                       (js "test-app"))
                    (repeat bs58.LEADER 31 ++ js "0") (js "test-app")
                    eq_refl ltac:(discriminate)
                    eq_refl ltac:(discriminate))
             48).
    + apply in_or_app. right. left. reflexivity.
    + apply bs58_facts.digit_of_char_None. reflexivity.
Defined.

Section Routes.

Variable ed : Noble.

Hypothesis hmac_sha512_ok : forall key message,
  exists h, hmac_sha512 ed key message = Ok h /\ length h = 64%nat.
Hypothesis getPublicKey_ok : forall priv,
  length priv = 32%nat ->
  exists pub, getPublicKey ed priv = Ok pub /\ length pub = 32%nat.
Hypothesis sign_ok : forall message priv,
  length priv = 32%nat ->
  exists sig, sign ed message priv = Ok sig /\ length sig = 64%nat.
Hypothesis verify_sign : forall message priv pub sig,
  getPublicKey ed priv = Ok pub ->
  sign ed message priv = Ok sig ->
  verify ed sig message pub = Ok true.

(** X9.  The derive handler refuses the empty identifier with status
    400, although [deriveAppIdentity] itself derives an identity for
    it. *)
Theorem derive_route_refuses_empty_appId (value : json)
  (masterPrivateKey : js_string) (masterKeyBytes : bytes) :
  property value (js "masterPrivateKey") = Some (JString masterPrivateKey) ->
  bs58.decode masterPrivateKey = Ok masterKeyBytes ->
  length masterKeyBytes = 32%nat ->
  property value (js "appId") = Some (JString []) ->
  (exists identity,
      deriveAppIdentity ed masterPrivateKey [] = Ok identity)
  /\ derive_route.POST ed (Ok value) =
     {| status := 400;
        body := error_body
                  (js "Invalid request: appId is required and must be a string") |}.
Proof.
  intros Hk Hdec Hlen Ha. split.
  - destruct (derive_steps ed hmac_sha512_ok getPublicKey_ok
                _ [] _ Hdec Hlen)
      as (h & pub & _ & _ & _ & _ & _ & Hres).
    eexists. exact Hres.
  - assert (Hne : masterPrivateKey <> []).
    { apply (decodes_nonempty _ _ Hdec). intros ->. discriminate. }
    unfold derive_route.POST. cbn [bind].
    rewrite destructure_Ok by (intros ->; discriminate). cbn [bind].
    rewrite Hk, Ha.
    rewrite (proj2 (field_accepted _)) by eauto.
    reflexivity.
Qed.

(** X11.  When the sign handler gets a key that decodes to 32 bytes and
    a non-empty message, it answers 200 with a signature and a public
    key, and [verifySignature] accepts that signature for the message
    under that public key. *)
Theorem sign_route_answer_verifies (value : json)
  (derivedPrivateKey message : js_string) (privateKeyBytes : bytes) :
  property value (js "derivedPrivateKey")
  = Some (JString derivedPrivateKey) ->
  bs58.decode derivedPrivateKey = Ok privateKeyBytes ->
  length privateKeyBytes = 32%nat ->
  property value (js "message") = Some (JString message) ->
  message <> [] ->
  exists signature publicKey,
    sign_route.POST ed (Ok value) =
    {| status := 200;
       body := JObject [(js "signature", JString signature);
                        (js "publicKey", JString publicKey)] |}
    /\ verifySignature ed signature message publicKey = true.
Proof.
  intros Hk Hdec Hlen Hm Hm'.
  assert (Hne : derivedPrivateKey <> []).
  { apply (decodes_nonempty _ _ Hdec). intros ->. discriminate. }
  rewrite (sign_POST_accepted ed value _ _ Hk Hne Hm Hm').
  destruct (sign_steps ed getPublicKey_ok sign_ok _ message _ Hdec Hlen)
    as (pub & sig & Hpub & Hlenpub & Hsig & Hlensig & Hres).
  rewrite Hres. cbn [Signed.signature Signed.publicKey].
  eexists _, _. split; [reflexivity|].
  apply verifySignature_true. exists sig, pub.
  rewrite !bs58_facts.decode_encode. repeat split; try assumption.
  eapply verify_sign; eassumption.
Qed.

(** X12.  The two handlers agree on the public key of an identity: what
    the derive handler answers for a master key and an identifier is
    what the sign handler answers as [publicKey] when it is given the
    private key derived from them. *)
Theorem routes_agree_on_public_key (derive_body sign_body : json)
  (masterPrivateKey appId message : js_string) (id : identity) :
  property derive_body (js "masterPrivateKey")
  = Some (JString masterPrivateKey) ->
  property derive_body (js "appId") = Some (JString appId) ->
  appId <> [] ->
  deriveAppIdentity ed masterPrivateKey appId = Ok id ->
  property sign_body (js "derivedPrivateKey")
  = Some (JString (privateKey id)) ->
  property sign_body (js "message") = Some (JString message) ->
  message <> [] ->
  exists signature,
    derive_route.POST ed (Ok derive_body) =
    {| status := 200;
       body := JObject [(js "publicKey", JString (publicKey id))] |}
    /\ sign_route.POST ed (Ok sign_body) =
       {| status := 200;
          body := JObject [(js "signature", JString signature);
                           (js "publicKey", JString (publicKey id))] |}.
Proof.
  intros Hk Ha Ha' Hid Hsk Hm Hm'.
  pose proof Hid as Hsteps. apply deriveAppIdentity_Ok in Hsteps.
  destruct Hsteps as (k & h & pub & Hdec & Hlen & Hh & Hpub & ->).
  assert (Hne : masterPrivateKey <> []).
  { apply (decodes_nonempty _ _ Hdec). intros ->. discriminate. }
  rewrite (derive_POST_accepted ed derive_body _ _ Hk Hne Ha Ha'), Hid.
  cbn [privateKey publicKey] in *.
  destruct (hmac_sha512_ok k
              (TextEncoder.encode (DOMAIN_SEPARATOR ++ appId)))
    as (h' & Hh' & Hlenh).
  rewrite Hh in Hh'. apply Ok_inj in Hh'. subst h'.
  assert (Hsk' : length (firstn 32 h) = 32%nat)
    by (rewrite length_firstn; lia).
  assert (Hne' : bs58.encode (firstn 32 h) <> []).
  { apply encode_nonempty. intros E. rewrite E in Hsk'. discriminate. }
  rewrite (sign_POST_accepted ed sign_body _ _ Hsk Hne' Hm Hm').
  destruct (sign_steps ed getPublicKey_ok sign_ok _ message _
              (bs58_facts.decode_encode _) Hsk')
    as (pub' & sig & Hpub' & _ & _ & _ & Hres).
  rewrite Hpub in Hpub'. apply Ok_inj in Hpub'. subst pub'.
  rewrite Hres. cbn [Signed.signature Signed.publicKey].
  eexists. split; reflexivity.
Qed.

End Routes.

(** X10.  A body that is JSON but no object: [null] makes the
    destructuring throw, which both handlers answer with status 500;
    a boolean, a number, a string or an array has neither field, which
    both answer with status 400. *)
Theorem non_object_bodies (ed : Noble) (value : json) :
  (forall props, value <> JObject props) ->
  status (derive_route.POST ed (Ok value))
  = (match value with JNull => 500 | _ => 400 end)
  /\ status (sign_route.POST ed (Ok value))
     = (match value with JNull => 500 | _ => 400 end).
Proof.
  intros Hno. destruct value; try (split; reflexivity).
  exfalso. eapply Hno. reflexivity.
Qed.

Lemma non_object_bodies_witness :
  status (derive_route.POST Model.noble (Ok (JArray []))) = 400
  /\ status (sign_route.POST Model.noble (Ok (JArray []))) = 400.
Proof.
  apply (non_object_bodies Model.noble (JArray [])).
  intros props. discriminate.
Defined.

Lemma derive_route_refuses_empty_appId_witness :
  (exists identity,
      deriveAppIdentity Model.noble zero_key [] = Ok identity)
  /\ derive_route.POST Model.noble (Ok (derive_request zero_key [])) =
     {| status := 400;
        body := error_body
                  (js "Invalid request: appId is required and must be a string") |}.
Proof.
  apply (derive_route_refuses_empty_appId Model.noble
           Model_facts.hmac_sha512_ok Model_facts.getPublicKey_ok
           (derive_request zero_key []) zero_key zero_bytes).
  - reflexivity.
  - exact zero_key_decodes.
  - reflexivity.
  - reflexivity.
Defined.

Lemma sign_route_answer_verifies_witness :
  exists signature publicKey,
    sign_route.POST Model.noble
      (Ok (sign_request zero_key (js "Hello, PhantomMask!"))) =
    {| status := 200;
       body := JObject [(js "signature", JString signature);
                        (js "publicKey", JString publicKey)] |}
    /\ verifySignature Model.noble signature (js "Hello, PhantomMask!")
         publicKey = true.
Proof.
  apply (sign_route_answer_verifies Model.noble
           Model_facts.getPublicKey_ok Model_facts.sign_ok
           Model_facts.verify_sign
           (sign_request zero_key (js "Hello, PhantomMask!"))
           zero_key (js "Hello, PhantomMask!") zero_bytes).
  - reflexivity.
  - exact zero_key_decodes.
  - reflexivity.
  - reflexivity.
  - discriminate.
Defined.

Lemma routes_agree_on_public_key_witness :
  exists signature,
    derive_route.POST Model.noble
      (Ok (derive_request zero_key (js "signing-app"))) =
    {| status := 200;
       body := JObject [(js "publicKey",
                         JString (publicKey signing_identity))] |}
    /\ sign_route.POST Model.noble
         (Ok (sign_request (privateKey signing_identity)
                (js "Test message"))) =
       {| status := 200;
          body := JObject [(js "signature", JString signature);
                           (js "publicKey",
                            JString (publicKey signing_identity))] |}.
Proof.
  apply (routes_agree_on_public_key Model.noble
           Model_facts.hmac_sha512_ok Model_facts.getPublicKey_ok
           Model_facts.sign_ok
           (derive_request zero_key (js "signing-app"))
           (sign_request (privateKey signing_identity) (js "Test message"))
           zero_key (js "signing-app") (js "Test message")
           signing_identity).
  - reflexivity.
  - reflexivity.
  - discriminate.
  - exact signing_identity_derived.
  - reflexivity.
  - reflexivity.
  - discriminate.
Defined.


(** ** The command line [scripts/cli.ts] *)

(** A run of the script writes lines to the two streams of the console
    and ends by returning, by throwing, or by [process.exit(code)].  The
    private keys that [ed.utils.randomPrivateKey()] draws are arguments
    of the functions that call it. *)
Module cli.

Inductive stream : Type :=
| stdout
| stderr.

Definition console : Type := list (stream * js_string).

(** What the script can throw: an error of [core/], or the
    [new Error(message)] of a failed protocol test. *)
Inductive thrown : Type :=
| CoreError (e : error)
| TestFailure (message : js_string).

(** [error.message] *)
Definition thrown_message (t : thrown) : js_string :=
  match t with
  | CoreError e => js (error_message e)
  | TestFailure message => message
  end.

Inductive outcome (A : Type) : Type :=
| Returned (a : A)
| Threw (t : thrown)
| Exited (code : N).

Arguments Returned {A} a.
Arguments Threw {A} t.
Arguments Exited {A} code.

Definition run (A : Type) : Type := (console * outcome A)%type.

Definition ret {A : Type} (a : A) : run A := ([], Returned a).

Definition bind_run {A B : Type} (m : run A) (k : A -> run B) : run B :=
  match m with
  | (out, Returned a) => let '(out', o) := k a in (out ++ out', o)
  | (out, Threw t) => (out, Threw t)
  | (out, Exited code) => (out, Exited code)
  end.

Notation "x <-- m ;; k" := (bind_run m (fun x => k))
  (at level 61, m at next level, right associativity).
Notation "m ;; k" := (bind_run m (fun _ => k))
  (at level 61, right associativity).

Definition console_log (text : js_string) : run unit :=
  ([(stdout, text)], Returned tt).

Definition console_error (text : js_string) : run unit :=
  ([(stderr, text)], Returned tt).

(** A call into [core/]. *)
Definition call {A : Type} (r : result A) : run A :=
  ([], match r with
       | Ok a => Returned a
       | Err e => Threw (CoreError e)
       end).

Definition throw {A : Type} (t : thrown) : run A := ([], Threw t).

Definition process_exit {A : Type} (code : N) : run A := ([], Exited code).

(** [try { m } catch (error) { handler }] *)
Definition try_catch {A : Type} (m : run A) (handler : thrown -> run A)
  : run A :=
  match m with
  | (out, Threw t) => let '(out', o) := handler t in (out ++ out', o)
  | other => other
  end.

(** The characters of the source that are not ASCII, the line feed and
    the double quote. *)
Definition nl : js_string := [10].
Definition quote : js_string := [34].
Definition check_mark : js_string := [0x2705].
Definition cross_mark : js_string := [0x274C].
Definition arrow : js_string := [0x2192].

(** [parts.join(separator)] *)
Fixpoint join (separator : js_string) (parts : list js_string)
  : js_string :=
  match parts with
  | [] => []
  | [part] => part
  | part :: rest => part ++ separator ++ join separator rest
  end.

Section Script.

Variable ed : Noble.

Definition derive (masterPrivateKey appId : js_string) : run identity :=
  console_log (js "Deriving app identity..." ++ nl) ;;
  console_log (js "Master private key: " ++ masterPrivateKey) ;;
  console_log (js "App ID: " ++ appId ++ nl) ;;
  identity <-- call (deriveAppIdentity ed masterPrivateKey appId) ;;
  console_log (js "Derived identity:") ;;
  console_log (js "  Private key: " ++ privateKey identity) ;;
  console_log (js "  Public key:  " ++ publicKey identity ++ nl) ;;
  ret identity.

Definition sign (derivedPrivateKey message : js_string) : run Signed.t :=
  console_log (js "Signing message..." ++ nl) ;;
  console_log (js "Derived private key: " ++ derivedPrivateKey) ;;
  console_log (js "Message: " ++ quote ++ message ++ quote ++ nl) ;;
  result <-- call (signMessage ed derivedPrivateKey message) ;;
  console_log (js "Signature result:") ;;
  console_log (js "  Signature: " ++ Signed.signature result) ;;
  console_log (js "  Public key: " ++ Signed.publicKey result ++ nl) ;;
  let isValid :=
    verifySignature ed (Signed.signature result) message
      (Signed.publicKey result) in
  console_log (js "Verification: "
                 ++ (if isValid then check_mark ++ js " Valid"
                     else cross_mark ++ js " Invalid") ++ nl) ;;
  ret result.

(** [runTests], with the three keys [ed.utils.randomPrivateKey()]
    returns, in the order of the calls. *)
Definition runTests (random1 random2 random3 : bytes) : run unit :=
  console_log (repeat 61 60) ;;
  console_log (js "PhantomMask v1 - Protocol Tests") ;;
  console_log (repeat 61 60) ;;
  console_log [] ;;
  console_log (js "Test 1: Determinism" ++ nl) ;;
  let masterKey1 := bs58.encode random1 in
  let appId1 := js "test-app" in
  identity1a <-- call (deriveAppIdentity ed masterKey1 appId1) ;;
  identity1b <-- call (deriveAppIdentity ed masterKey1 appId1) ;;
  (if negb (js_string_eqb (privateKey identity1a) (privateKey identity1b))
      || negb (js_string_eqb (publicKey identity1a) (publicKey identity1b))
   then throw (TestFailure (cross_mark ++ js " Determinism test failed"))
   else ret tt) ;;
  console_log (check_mark ++ js " Same master key + same app ID "
                 ++ arrow ++ js " same identity" ++ nl) ;;
  console_log (js "Test 2: App-level unlinkability" ++ nl) ;;
  let masterKey2 := bs58.encode random2 in
  identity2a <-- call (deriveAppIdentity ed masterKey2 (js "app-alpha")) ;;
  identity2b <-- call (deriveAppIdentity ed masterKey2 (js "app-beta")) ;;
  (if js_string_eqb (publicKey identity2a) (publicKey identity2b)
   then throw (TestFailure (cross_mark ++ js " Unlinkability test failed"))
   else ret tt) ;;
  console_log (check_mark ++ js " Same master key + different app ID "
                 ++ arrow ++ js " different identity" ++ nl) ;;
  console_log (js "Test 3: Message signing" ++ nl) ;;
  let masterKey3 := bs58.encode random3 in
  identity3 <-- call (deriveAppIdentity ed masterKey3 (js "signing-app")) ;;
  let message3 := js "Test message" in
  sigResult <-- call (signMessage ed (privateKey identity3) message3) ;;
  let isValid3 :=
    verifySignature ed (Signed.signature sigResult) message3
      (Signed.publicKey sigResult) in
  (if negb isValid3
   then throw (TestFailure (cross_mark ++ js " Signing test failed"))
   else ret tt) ;;
  console_log (check_mark
                 ++ js " Derived identity can sign and verify messages"
                 ++ nl) ;;
  console_log (repeat 61 60) ;;
  console_log (check_mark ++ js " All protocol tests passed") ;;
  console_log (repeat 61 60).

Definition usage : run unit :=
  console_log (js "PhantomMask v1 CLI" ++ nl) ;;
  console_log (js "Usage:") ;;
  console_log (js "  npm run cli derive <masterPrivateKey> <appId>") ;;
  console_log (js "  npm run cli sign <derivedPrivateKey> <message>") ;;
  console_log (js "  npm run cli test" ++ nl) ;;
  console_log (js "Examples:") ;;
  console_log (js "  npm run cli derive <base58-key> my-app") ;;
  console_log (js "  npm run cli sign <base58-key> " ++ quote
                 ++ js "Hello, PhantomMask!" ++ quote) ;;
  console_log (js "  npm run cli test") ;;
  process_exit 0.

(** The [switch] on the command. *)
Definition dispatch (command : js_string) (args : list js_string)
  (random1 random2 random3 : bytes) : run unit :=
  if js_string_eqb command (js "derive") then
    (if (length args <? 3)%nat
     then console_error
            (js "Error: derive requires masterPrivateKey and appId") ;;
          process_exit 1
     else ret tt) ;;
    derive (nth 1 args []) (nth 2 args []) ;;
    ret tt
  else if js_string_eqb command (js "sign") then
    (if (length args <? 3)%nat
     then console_error
            (js "Error: sign requires derivedPrivateKey and message") ;;
          process_exit 1
     else ret tt) ;;
    sign (nth 1 args []) (join (js " ") (skipn 2 args)) ;;
    ret tt
  else if js_string_eqb command (js "test") then
    runTests random1 random2 random3
  else
    console_error (js "Error: Unknown command " ++ quote ++ command
                     ++ quote) ;;
    console_log (js "Available commands: derive, sign, test") ;;
    process_exit 1.

(** The script, started with [args] after the script name
    ([process.argv.slice(2)]). *)
Definition main (args : list js_string) (random1 random2 random3 : bytes)
  : run unit :=
  match args with
  | [] => usage
  | [] :: _ => usage
  | command :: _ =>
      try_catch (dispatch command args random1 random2 random3)
        (fun error =>
           console_error (js "Error: " ++ thrown_message error) ;;
           process_exit 1)
  end.

End Script.

End cli.

(** *** What the script does *)

Lemma js_string_eqb_eq (a b : js_string) :
  js_string_eqb a b = true <-> a = b.
Proof.
  unfold js_string_eqb.
  destruct (list_eq_dec N.eq_dec a b); split; congruence.
Qed.

Lemma js_string_eqb_refl (a : js_string) : js_string_eqb a a = true.
Proof. apply js_string_eqb_eq. reflexivity. Qed.

Lemma js_string_eqb_neq (a b : js_string) :
  js_string_eqb a b = false <-> a <> b.
Proof.
  unfold js_string_eqb.
  destruct (list_eq_dec N.eq_dec a b); split; congruence.
Qed.

(** Runs that do not leave the process. *)
Definition stays {A : Type} (m : cli.run A) : Prop :=
  forall code, snd m <> cli.Exited code.

Lemma stays_bind {A B : Type} (m : cli.run A) (k : A -> cli.run B) :
  stays m -> (forall a, stays (k a)) -> stays (cli.bind_run m k).
Proof.
  intros Hm Hk code. destruct m as [out [a|t|c]]; cbn [cli.bind_run].
  - specialize (Hk a code). destruct (k a) as [out' o]. exact Hk.
  - discriminate.
  - exfalso. apply (Hm c). reflexivity.
Qed.

Lemma stays_log (text : js_string) : stays (cli.console_log text).
Proof. intros code. discriminate. Qed.

Lemma stays_ret {A : Type} (a : A) : stays (cli.ret a).
Proof. intros code. discriminate. Qed.

Lemma stays_throw {A : Type} (t : cli.thrown) : stays (@cli.throw A t).
Proof. intros code. discriminate. Qed.

Lemma stays_call {A : Type} (r : result A) : stays (cli.call r).
Proof. intros code. destruct r; discriminate. Qed.

Ltac stays :=
  repeat first
    [ apply stays_log | apply stays_ret | apply stays_throw
    | apply stays_call
    | apply stays_bind; [|intros ?]
    | match goal with
      | |- stays (if ?c then _ else _) => destruct c
      end ].

Lemma derive_stays (ed : Noble) (masterPrivateKey appId : js_string) :
  stays (cli.derive ed masterPrivateKey appId).
Proof. unfold cli.derive. stays. Qed.

Lemma sign_stays (ed : Noble) (derivedPrivateKey message : js_string) :
  stays (cli.sign ed derivedPrivateKey message).
Proof. unfold cli.sign. stays. Qed.

Lemma runTests_stays (ed : Noble) (random1 random2 random3 : bytes) :
  stays (cli.runTests ed random1 random2 random3).
Proof. unfold cli.runTests. stays. Qed.

Ltac stays_script :=
  repeat first
    [ apply derive_stays | apply sign_stays | apply runTests_stays
    | apply stays_log | apply stays_ret | apply stays_throw
    | apply stays_call
    | apply stays_bind; [|intros ?] ].

Ltac cannot_exit :=
  match goal with
  | |- snd ?m = cli.Exited ?code -> _ =>
      let H := fresh in
      let Hs := fresh in
      intros H; exfalso;
      assert (Hs : stays m) by stays_script;
      exact (Hs code H)
  end.

(** The exits of [dispatch] all carry the code 1. *)
Lemma dispatch_exit (ed : Noble) (command : js_string)
  (args : list js_string) (random1 random2 random3 : bytes) (code : N) :
  snd (cli.dispatch ed command args random1 random2 random3)
  = cli.Exited code -> code = 1.
Proof.
  unfold cli.dispatch.
  destruct (js_string_eqb command (js "derive")).
  { destruct (length args <? 3)%nat; [|cannot_exit].
    cbn [cli.bind_run cli.console_error cli.process_exit app snd].
    intros [= <-]. reflexivity. }
  destruct (js_string_eqb command (js "sign")).
  { destruct (length args <? 3)%nat; [|cannot_exit].
    cbn [cli.bind_run cli.console_error cli.process_exit app snd].
    intros [= <-]. reflexivity. }
  destruct (js_string_eqb command (js "test")); [cannot_exit|].
  cbn [cli.bind_run cli.console_error cli.console_log cli.process_exit
         app snd].
  intros [= <-]. reflexivity.
Qed.

(** X13.  The script never ends with an uncaught exception: it returns,
    or exits with code 0 or 1.  It exits with code 0 exactly when no
    command is given (no argument, or an empty first argument). *)
Theorem main_exit_codes (ed : Noble) (args : list js_string)
  (random1 random2 random3 : bytes) :
  (snd (cli.main ed args random1 random2 random3) = cli.Returned tt
   \/ snd (cli.main ed args random1 random2 random3) = cli.Exited 0
   \/ snd (cli.main ed args random1 random2 random3) = cli.Exited 1)
  /\ (snd (cli.main ed args random1 random2 random3) = cli.Exited 0
      <-> hd [] args = []).
Proof.
  destruct args as [|command rest].
  { split; [right; left; reflexivity|]. split; reflexivity. }
  destruct command as [|c command].
  { split; [right; left; reflexivity|]. split; reflexivity. }
  cbn [hd]. unfold cli.main. cbv beta iota.
  match goal with
  | |- context [cli.dispatch ed ?x ?y ?r1 ?r2 ?r3] =>
      pose proof (dispatch_exit ed x y r1 r2 r3) as Hexit;
      set (d := cli.dispatch ed x y r1 r2 r3) in *
  end.
  destruct d as [out [[]|t|code]];
    cbn [cli.try_catch cli.bind_run cli.console_error cli.process_exit
           app snd] in *.
  - split; [left; reflexivity|]. split; discriminate.
  - split; [right; right; reflexivity|]. split; discriminate.
  - rewrite (Hexit code eq_refl).
    split; [right; right; reflexivity|]. split; discriminate.
Qed.

(** A first argument that is not empty is the command. *)
Lemma main_command (ed : Noble) (command : js_string)
  (rest : list js_string) (random1 random2 random3 : bytes) :
  command <> [] ->
  cli.main ed (command :: rest) random1 random2 random3 =
  cli.try_catch
    (cli.dispatch ed command (command :: rest) random1 random2 random3)
    (fun error =>
       cli.bind_run
         (cli.console_error (js "Error: " ++ cli.thrown_message error))
         (fun _ => cli.process_exit 1)).
Proof. destruct command; [contradiction|reflexivity]. Qed.

Lemma dispatch_derive (ed : Noble) (masterPrivateKey appId : js_string)
  (rest : list js_string) (random1 random2 random3 : bytes) :
  cli.dispatch ed (js "derive")
    (js "derive" :: masterPrivateKey :: appId :: rest)
    random1 random2 random3 =
  cli.bind_run (cli.derive ed masterPrivateKey appId)
    (fun _ => cli.ret tt).
Proof.
  unfold cli.dispatch.
  replace (js_string_eqb (js "derive") (js "derive")) with true
    by reflexivity.
  cbn [length Nat.ltb Nat.leb nth].
  destruct (cli.derive ed masterPrivateKey appId) as [out [id|t|code]];
    reflexivity.
Qed.

Lemma dispatch_sign (ed : Noble) (derivedPrivateKey word : js_string)
  (words : list js_string) (random1 random2 random3 : bytes) :
  cli.dispatch ed (js "sign")
    (js "sign" :: derivedPrivateKey :: word :: words)
    random1 random2 random3 =
  cli.bind_run
    (cli.sign ed derivedPrivateKey (cli.join (js " ") (word :: words)))
    (fun _ => cli.ret tt).
Proof.
  unfold cli.dispatch.
  replace (js_string_eqb (js "sign") (js "derive")) with false
    by reflexivity.
  replace (js_string_eqb (js "sign") (js "sign")) with true
    by reflexivity.
  cbn [length Nat.ltb Nat.leb nth skipn].
  destruct (cli.sign ed derivedPrivateKey
              (cli.join (js " ") (word :: words))) as [out [s|t|code]];
    reflexivity.
Qed.

(** X14.  When a core function throws, the [derive] and [sign] commands
    end with the lines printed so far, the message of the error on the
    error stream, and exit code 1. *)
Theorem main_reports_core_errors (ed : Noble)
  (masterPrivateKey appId derivedPrivateKey word : js_string)
  (rest words : list js_string) (e1 e2 : error)
  (random1 random2 random3 : bytes) :
  deriveAppIdentity ed masterPrivateKey appId = Err e1 ->
  signMessage ed derivedPrivateKey (cli.join (js " ") (word :: words))
  = Err e2 ->
  cli.main ed (js "derive" :: masterPrivateKey :: appId :: rest)
    random1 random2 random3 =
  ([(cli.stdout, js "Deriving app identity..." ++ cli.nl);
    (cli.stdout, js "Master private key: " ++ masterPrivateKey);
    (cli.stdout, js "App ID: " ++ appId ++ cli.nl);
    (cli.stderr, js "Error: " ++ js (error_message e1))],
   cli.Exited 1)
  /\ cli.main ed (js "sign" :: derivedPrivateKey :: word :: words)
       random1 random2 random3 =
     ([(cli.stdout, js "Signing message..." ++ cli.nl);
       (cli.stdout, js "Derived private key: " ++ derivedPrivateKey);
       (cli.stdout,
        js "Message: " ++ cli.quote
          ++ cli.join (js " ") (word :: words) ++ cli.quote ++ cli.nl);
       (cli.stderr, js "Error: " ++ js (error_message e2))],
      cli.Exited 1).
Proof.
  intros Hd Hs. split.
  - rewrite main_command by discriminate. rewrite dispatch_derive.
    unfold cli.derive. rewrite Hd. reflexivity.
  - rewrite main_command by discriminate. rewrite dispatch_sign.
    unfold cli.sign. rewrite Hs. reflexivity.
Qed.

Lemma main_reports_core_errors_witness :
  cli.main unavailable
    [js "derive"; repeat bs58.LEADER 31; js "my-app"]
    zero_bytes zero_bytes zero_bytes =
  ([(cli.stdout, js "Deriving app identity..." ++ cli.nl);
    (cli.stdout, js "Master private key: " ++ repeat bs58.LEADER 31);
    (cli.stdout, js "App ID: " ++ js "my-app" ++ cli.nl);
    (cli.stderr,
     js "Error: Master private key must be 32 bytes, got 31")],
   cli.Exited 1)
  /\ cli.main unavailable [js "sign"; js "0"; js "Hello,"; js "PhantomMask!"]
       zero_bytes zero_bytes zero_bytes =
     ([(cli.stdout, js "Signing message..." ++ cli.nl);
       (cli.stdout, js "Derived private key: " ++ js "0");
       (cli.stdout,
        js "Message: " ++ cli.quote
          ++ js "Hello, PhantomMask!" ++ cli.quote ++ cli.nl);
       (cli.stderr, js "Error: Non-base58 character")],
      cli.Exited 1).
Proof.
  apply (main_reports_core_errors unavailable
           (repeat bs58.LEADER 31) (js "my-app")
           (js "0") (js "Hello,") [] [js "PhantomMask!"]
           (InvalidKeyLength MasterPrivateKey 31) DecodeError).
  - reflexivity.
  - reflexivity.
Defined.

Section Script.

Variable ed : Noble.

Hypothesis hmac_sha512_ok : forall key message,
  exists h, hmac_sha512 ed key message = Ok h /\ length h = 64%nat.
Hypothesis getPublicKey_ok : forall priv,
  length priv = 32%nat ->
  exists pub, getPublicKey ed priv = Ok pub /\ length pub = 32%nat.
Hypothesis sign_ok : forall message priv,
  length priv = 32%nat ->
  exists sig, sign ed message priv = Ok sig /\ length sig = 64%nat.
Hypothesis verify_sign : forall message priv pub sig,
  getPublicKey ed priv = Ok pub ->
  sign ed message priv = Ok sig ->
  verify ed sig message pub = Ok true.

(** Signing with a valid key gives a result that verifies. *)
Lemma signed_is_accepted (derivedPrivateKey message : js_string)
  (privateKeyBytes : bytes) :
  bs58.decode derivedPrivateKey = Ok privateKeyBytes ->
  length privateKeyBytes = 32%nat ->
  exists s,
    signMessage ed derivedPrivateKey message = Ok s
    /\ verifySignature ed (Signed.signature s) message (Signed.publicKey s)
       = true.
Proof.
  intros Hdec Hlen.
  destruct (sign_steps ed getPublicKey_ok sign_ok _ message _ Hdec Hlen)
    as (pub & sig & Hpub & Hlenpub & Hsig & Hlensig & Hres).
  eexists. split; [exact Hres|].
  cbn [Signed.signature Signed.publicKey].
  apply verifySignature_true. exists sig, pub.
  rewrite !bs58_facts.decode_encode. repeat split; try assumption.
  eapply verify_sign; eassumption.
Qed.

(** The master key made of 32 random bytes derives an identity whose
    private key signs. *)
Lemma random_key_derives (random : bytes) (appId : js_string) :
  length random = 32%nat ->
  exists id priv,
    deriveAppIdentity ed (bs58.encode random) appId = Ok id
    /\ bs58.decode (privateKey id) = Ok priv
    /\ length priv = 32%nat.
Proof.
  intros Hlen.
  destruct (derive_steps ed hmac_sha512_ok getPublicKey_ok
              _ appId _ (bs58_facts.decode_encode random) Hlen)
    as (h & pub & _ & _ & Hsk & _ & _ & Hres).
  eexists _, (firstn 32 h). split; [exact Hres|].
  cbn [privateKey]. rewrite bs58_facts.decode_encode. auto.
Qed.

(** X15.  The [sign] command signs its words joined by single spaces;
    with a key that decodes to 32 bytes it prints the signature and the
    public key that [signMessage] returns for that message, reports the
    verification as valid, and returns. *)
Theorem sign_command_reports_valid
  (derivedPrivateKey word : js_string) (words : list js_string)
  (privateKeyBytes random1 random2 random3 : bytes) :
  bs58.decode derivedPrivateKey = Ok privateKeyBytes ->
  length privateKeyBytes = 32%nat ->
  exists s,
    signMessage ed derivedPrivateKey (cli.join (js " ") (word :: words))
    = Ok s
    /\ cli.main ed (js "sign" :: derivedPrivateKey :: word :: words)
         random1 random2 random3 =
       ([(cli.stdout, js "Signing message..." ++ cli.nl);
         (cli.stdout, js "Derived private key: " ++ derivedPrivateKey);
         (cli.stdout,
          js "Message: " ++ cli.quote
            ++ cli.join (js " ") (word :: words) ++ cli.quote ++ cli.nl);
         (cli.stdout, js "Signature result:");
         (cli.stdout, js "  Signature: " ++ Signed.signature s);
         (cli.stdout, js "  Public key: " ++ Signed.publicKey s ++ cli.nl);
         (cli.stdout,
          js "Verification: " ++ (cli.check_mark ++ js " Valid")
            ++ cli.nl)],
        cli.Returned tt).
Proof.
  intros Hdec Hlen.
  destruct (signed_is_accepted _ (cli.join (js " ") (word :: words)) _
              Hdec Hlen) as (s & Hs & Hv).
  exists s. split; [exact Hs|].
  rewrite main_command by discriminate. rewrite dispatch_sign.
  unfold cli.sign. rewrite Hs.
  cbn [cli.bind_run cli.console_log cli.call cli.ret cli.try_catch app].
  rewrite Hv. reflexivity.
Qed.

(** X16.  With three random keys of 32 bytes, the determinism test and
    the signing test of [runTests] cannot fail: the run returns when the
    identities derived for "app-alpha" and "app-beta" have different
    public keys, and otherwise throws the failure of the unlinkability
    test. *)
Theorem runTests_outcome (random1 random2 random3 : bytes) :
  length random1 = 32%nat -> length random2 = 32%nat ->
  length random3 = 32%nat ->
  exists alpha beta,
    deriveAppIdentity ed (bs58.encode random2) (js "app-alpha") = Ok alpha
    /\ deriveAppIdentity ed (bs58.encode random2) (js "app-beta") = Ok beta
    /\ snd (cli.runTests ed random1 random2 random3) =
       (if js_string_eqb (publicKey alpha) (publicKey beta)
        then cli.Threw
               (cli.TestFailure
                  (cli.cross_mark ++ js " Unlinkability test failed"))
        else cli.Returned tt).
Proof.
  intros H1 H2 H3.
  destruct (random_key_derives random1 (js "test-app") H1)
    as (id1 & _ & Hid1 & _).
  destruct (random_key_derives random2 (js "app-alpha") H2)
    as (alpha & _ & Halpha & _).
  destruct (random_key_derives random2 (js "app-beta") H2)
    as (beta & _ & Hbeta & _).
  destruct (random_key_derives random3 (js "signing-app") H3)
    as (id3 & priv3 & Hid3 & Hdec3 & Hlen3).
  destruct (signed_is_accepted _ (js "Test message") _ Hdec3 Hlen3)
    as (s & Hs & Hv).
  exists alpha, beta. split; [exact Halpha|]. split; [exact Hbeta|].
  unfold cli.runTests. rewrite Hid1, Halpha, Hbeta, Hid3.
  cbn [cli.bind_run cli.console_log cli.call cli.ret cli.throw app snd].
  rewrite !js_string_eqb_refl. cbn [negb orb].
  cbn [cli.bind_run cli.console_log cli.call cli.ret cli.throw app snd].
  destruct (js_string_eqb (publicKey alpha) (publicKey beta)).
  - reflexivity.
  - cbn [cli.bind_run cli.console_log cli.call cli.ret cli.throw app snd].
    rewrite Hs.
    cbn [cli.bind_run cli.console_log cli.call cli.ret cli.throw app snd].
    rewrite Hv. reflexivity.
Qed.

End Script.

Lemma sign_command_reports_valid_witness :
  exists s,
    signMessage Model.noble zero_key
      (cli.join (js " ") [js "Hello,"; js "PhantomMask!"]) = Ok s
    /\ cli.main Model.noble
         [js "sign"; zero_key; js "Hello,"; js "PhantomMask!"]
         zero_bytes zero_bytes zero_bytes =
       ([(cli.stdout, js "Signing message..." ++ cli.nl);
         (cli.stdout, js "Derived private key: " ++ zero_key);
         (cli.stdout,
          js "Message: " ++ cli.quote
            ++ cli.join (js " ") [js "Hello,"; js "PhantomMask!"]
            ++ cli.quote ++ cli.nl);
         (cli.stdout, js "Signature result:");
         (cli.stdout, js "  Signature: " ++ Signed.signature s);
         (cli.stdout, js "  Public key: " ++ Signed.publicKey s ++ cli.nl);
         (cli.stdout,
          js "Verification: " ++ (cli.check_mark ++ js " Valid")
            ++ cli.nl)],
        cli.Returned tt).
Proof.
  apply (sign_command_reports_valid Model.noble
           Model_facts.getPublicKey_ok Model_facts.sign_ok
           Model_facts.verify_sign
           zero_key (js "Hello,") [js "PhantomMask!"] zero_bytes).
  - exact zero_key_decodes.
  - reflexivity.
Defined.

Lemma runTests_outcome_witness :
  exists alpha beta,
    deriveAppIdentity Model.noble (bs58.encode zero_bytes) (js "app-alpha")
    = Ok alpha
    /\ deriveAppIdentity Model.noble (bs58.encode zero_bytes)
         (js "app-beta") = Ok beta
    /\ snd (cli.runTests Model.noble zero_bytes zero_bytes zero_bytes) =
       (if js_string_eqb (publicKey alpha) (publicKey beta)
        then cli.Threw
               (cli.TestFailure
                  (cli.cross_mark ++ js " Unlinkability test failed"))
        else cli.Returned tt).
Proof.
  apply (runTests_outcome Model.noble
           Model_facts.hmac_sha512_ok Model_facts.getPublicKey_ok
           Model_facts.sign_ok Model_facts.verify_sign
           zero_bytes zero_bytes zero_bytes).
  - reflexivity.
  - reflexivity.
  - reflexivity.
Defined.

(** ** The buffers the primitives are given *)

(** An instance that behaves as [Model.noble] on buffers of the checked
    sizes and throws on every other buffer. *)
Definition strict : Noble :=
  {| hmac_sha512 := fun key message =>
       if (length key =? 32)%nat
       then hmac_sha512 Model.noble key message
       else Err (Unknown "hmac: key of another length");
     getPublicKey := fun priv =>
       if (length priv <=? 32)%nat
       then getPublicKey Model.noble priv
       else Err (Unknown "getPublicKey: key of another length");
     sign := fun message priv =>
       if (length priv =? 32)%nat
       then sign Model.noble message priv
       else Err (Unknown "sign: key of another length");
     verify := fun sig message pub =>
       if ((length sig =? 64) && (length pub =? 32))%nat
       then verify Model.noble sig message pub
       else Err (Unknown "verify: buffer of another length") |}.

(** X17.  The length checks shield the primitives: HMAC only gets a
    32-byte key, [getPublicKey] a key of at most 32 bytes (exactly 32 in
    [signMessage]), [sign] a 32-byte key, and [verify] a 64-byte
    signature with a 32-byte public key.  Two implementations that agree
    on such buffers give the same results in the three functions,
    however they differ elsewhere. *)
Theorem primitives_get_checked_buffers (ed ed' : Noble)
  (key other signature publicKey : js_string) :
  (forall k message, length k = 32%nat ->
     hmac_sha512 ed k message = hmac_sha512 ed' k message) ->
  (forall priv, (length priv <= 32)%nat ->
     getPublicKey ed priv = getPublicKey ed' priv) ->
  (forall message priv, length priv = 32%nat ->
     sign ed message priv = sign ed' message priv) ->
  (forall sig message pub, length sig = 64%nat -> length pub = 32%nat ->
     verify ed sig message pub = verify ed' sig message pub) ->
  deriveAppIdentity ed key other = deriveAppIdentity ed' key other
  /\ signMessage ed key other = signMessage ed' key other
  /\ verifySignature ed signature other publicKey
     = verifySignature ed' signature other publicKey.
Proof.
  intros Hh Hg Hs Hv. repeat split.
  - unfold deriveAppIdentity.
    destruct (bs58.decode key) as [k|e]; [|reflexivity]. cbn [bind].
    destruct (Nat.eqb_spec (length k) 32) as [Hlen|_]; [|reflexivity].
    cbn [negb throw_if]. rewrite (Hh k _ Hlen).
    destruct (hmac_sha512 ed' k _) as [h|e]; [|reflexivity]. cbn [bind].
    rewrite Hg; [reflexivity|].
    rewrite slice_0, length_firstn. lia.
  - unfold signMessage.
    destruct (bs58.decode key) as [k|e]; [|reflexivity]. cbn [bind].
    destruct (Nat.eqb_spec (length k) 32) as [Hlen|_]; [|reflexivity].
    cbn [negb throw_if]. rewrite (Hg k) by lia.
    destruct (getPublicKey ed' k) as [pub|e]; [|reflexivity]. cbn [bind].
    rewrite (Hs _ k Hlen). reflexivity.
  - unfold verifySignature, verifySignature_try.
    destruct (bs58.decode signature) as [sb|e]; [|reflexivity].
    destruct (bs58.decode publicKey) as [pb|e]; [|reflexivity].
    cbn [bind].
    destruct (Nat.eqb_spec (length sb) 64) as [Hsb|_]; [|reflexivity].
    destruct (Nat.eqb_spec (length pb) 32) as [Hpb|_]; [|reflexivity].
    cbn [negb throw_if]. rewrite (Hv _ _ _ Hsb Hpb). reflexivity.
Qed.

Lemma primitives_get_checked_buffers_witness :
  deriveAppIdentity Model.noble zero_key (js "test-app")
  = deriveAppIdentity strict zero_key (js "test-app")
  /\ signMessage Model.noble zero_key (js "test-app")
     = signMessage strict zero_key (js "test-app")
  /\ verifySignature Model.noble (repeat bs58.LEADER 63) (js "test-app")
       zero_key
     = verifySignature strict (repeat bs58.LEADER 63) (js "test-app")
         zero_key.
Proof.
  apply (primitives_get_checked_buffers Model.noble strict
           zero_key (js "test-app") (repeat bs58.LEADER 63) zero_key).
  - intros k message Hlen. cbn [hmac_sha512 strict].
    rewrite Hlen, Nat.eqb_refl. reflexivity.
  - intros priv Hlen. cbn [getPublicKey strict].
    apply Nat.leb_le in Hlen. rewrite Hlen. reflexivity.
  - intros message priv Hlen. cbn [sign strict].
    rewrite Hlen, Nat.eqb_refl. reflexivity.
  - intros sig message pub Hsig Hpub. cbn [verify strict].
    rewrite Hsig, Hpub, !Nat.eqb_refl. reflexivity.
Defined.

Section DeriveCommand.

Variable ed : Noble.

Hypothesis hmac_sha512_ok : forall key message,
  exists h, hmac_sha512 ed key message = Ok h /\ length h = 64%nat.
Hypothesis getPublicKey_ok : forall priv,
  length priv = 32%nat ->
  exists pub, getPublicKey ed priv = Ok pub /\ length pub = 32%nat.

(** X18.  The [derive] command, given a master key that decodes to 32
    bytes, prints the derived private key and public key on the standard
    output and returns; arguments after the identifier are ignored. *)
Theorem derive_command_prints_keys
  (masterPrivateKey appId : js_string) (rest : list js_string)
  (masterKeyBytes random1 random2 random3 : bytes) :
  bs58.decode masterPrivateKey = Ok masterKeyBytes ->
  length masterKeyBytes = 32%nat ->
  exists id,
    deriveAppIdentity ed masterPrivateKey appId = Ok id
    /\ cli.main ed (js "derive" :: masterPrivateKey :: appId :: rest)
         random1 random2 random3 =
       ([(cli.stdout, js "Deriving app identity..." ++ cli.nl);
         (cli.stdout, js "Master private key: " ++ masterPrivateKey);
         (cli.stdout, js "App ID: " ++ appId ++ cli.nl);
         (cli.stdout, js "Derived identity:");
         (cli.stdout, js "  Private key: " ++ privateKey id);
         (cli.stdout, js "  Public key:  " ++ publicKey id ++ cli.nl)],
        cli.Returned tt).
Proof.
  intros Hdec Hlen.
  destruct (derive_steps ed hmac_sha512_ok getPublicKey_ok
              _ appId _ Hdec Hlen)
    as (h & pub & _ & _ & _ & _ & _ & Hres).
  eexists. split; [exact Hres|].
  rewrite main_command by discriminate. rewrite dispatch_derive.
  unfold cli.derive. rewrite Hres. reflexivity.
Qed.

End DeriveCommand.

Lemma derive_command_prints_keys_witness :
  exists id,
    deriveAppIdentity Model.noble zero_key (js "signing-app") = Ok id
    /\ cli.main Model.noble
         [js "derive"; zero_key; js "signing-app"; js "ignored"]
         zero_bytes zero_bytes zero_bytes =
       ([(cli.stdout, js "Deriving app identity..." ++ cli.nl);
         (cli.stdout, js "Master private key: " ++ zero_key);
         (cli.stdout, js "App ID: " ++ js "signing-app" ++ cli.nl);
         (cli.stdout, js "Derived identity:");
         (cli.stdout, js "  Private key: " ++ privateKey id);
         (cli.stdout, js "  Public key:  " ++ publicKey id ++ cli.nl)],
        cli.Returned tt).
Proof.
  apply (derive_command_prints_keys Model.noble
           Model_facts.hmac_sha512_ok Model_facts.getPublicKey_ok
           zero_key (js "signing-app") [js "ignored"] zero_bytes).
  - exact zero_key_decodes.
  - reflexivity.
Defined.

(** ** The size of the strings returned *)

Section RadixSize.

Variable b : N.
Hypothesis b_gt_1 : 1 < b.

Lemma pow_succ_nat (k : nat) : b ^ N.of_nat (S k) = b * b ^ N.of_nat k.
Proof. rewrite Nat2N.inj_succ, N.pow_succ_r'. reflexivity. Qed.

Lemma pow_pos_nat (k : nat) : 0 < b ^ N.of_nat k.
Proof.
  induction k as [|k IH]; [reflexivity|]. rewrite pow_succ_nat. nia.
Qed.

Lemma to_le_length_le (fuel : nat) :
  forall n k, n < b ^ N.of_nat k ->
              (length (Radix.to_le b fuel n) <= k)%nat.
Proof.
  induction fuel as [|fuel IH]; intros n k Hn; cbn [Radix.to_le length].
  - lia.
  - destruct (N.eqb_spec n 0) as [->|Hnz]; cbn [length]; [lia|].
    destruct k as [|k]; [change (b ^ N.of_nat 0) with 1 in Hn; lia|].
    rewrite pow_succ_nat in Hn.
    assert (Hq : n / b < b ^ N.of_nat k)
      by (apply N.Div0.div_lt_upper_bound; exact Hn).
    specialize (IH _ _ Hq). lia.
Qed.

Lemma to_le_length_gt (fuel : nat) :
  forall n k, n < 2 ^ N.of_nat fuel -> b ^ N.of_nat k <= n ->
              (k < length (Radix.to_le b fuel n))%nat.
Proof.
  induction fuel as [|fuel IH]; intros n k Hfuel Hn.
  - pose proof (pow_pos_nat k). change (2 ^ N.of_nat 0) with 1 in Hfuel.
    lia.
  - cbn [Radix.to_le].
    destruct (N.eqb_spec n 0) as [->|Hnz].
    + pose proof (pow_pos_nat k). lia.
    + cbn [length]. destruct k as [|k]; [lia|].
      rewrite pow_succ_nat in Hn.
      assert (Hq : b ^ N.of_nat k <= n / b)
        by (apply N.div_le_lower_bound; [lia|exact Hn]).
      pose proof (div_base_lt b b_gt_1 fuel n Hfuel) as Hfuel'.
      specialize (IH _ _ Hfuel' Hq). lia.
Qed.

Lemma of_le_lt (ds : list N) :
  Forall (fun d => d < b) ds ->
  Radix.of_le b ds < b ^ N.of_nat (length ds).
Proof.
  induction 1 as [|d ds Hd _ IH]; [reflexivity|].
  cbn [Radix.of_le length]. rewrite pow_succ_nat. nia.
Qed.

Lemma of_le_ge (ds : list N) :
  ds <> [] -> last ds 1 <> 0 ->
  b ^ N.of_nat (length ds - 1) <= Radix.of_le b ds.
Proof.
  induction ds as [|d ds IH]; intros Hne Hlast; [congruence|].
  destruct ds as [|d' ds'].
  - cbn [last] in Hlast. cbn [Radix.of_le length Nat.sub].
    change (b ^ N.of_nat 0) with 1. lia.
  - assert (IH' : b ^ N.of_nat (length (d' :: ds') - 1)
                  <= Radix.of_le b (d' :: ds'))
      by (apply IH; [discriminate|exact Hlast]).
    change (length (d :: d' :: ds') - 1)%nat with (S (length ds')).
    change (length (d' :: ds') - 1)%nat with (length ds' - 0)%nat in IH'.
    rewrite Nat.sub_0_r in IH'.
    rewrite pow_succ_nat.
    change (Radix.of_le b (d :: d' :: ds'))
      with (d + b * Radix.of_le b (d' :: ds')).
    nia.
Qed.

Lemma to_be_length_le (n : N) (k : nat) :
  n < b ^ N.of_nat k -> (length (Radix.to_be b n) <= k)%nat.
Proof.
  intros H. unfold Radix.to_be. rewrite length_rev.
  apply to_le_length_le. exact H.
Qed.

Lemma to_be_length_gt (n : N) (k : nat) :
  b ^ N.of_nat k <= n -> (k < length (Radix.to_be b n))%nat.
Proof.
  intros H. unfold Radix.to_be. rewrite length_rev.
  apply to_le_length_gt; [apply (size_nat_gt b b_gt_1)|exact H].
Qed.

Lemma of_be_lt (ds : list N) :
  Forall (fun d => d < b) ds ->
  Radix.of_be b ds < b ^ N.of_nat (length ds).
Proof.
  intros H. unfold Radix.of_be. rewrite <- length_rev.
  apply of_le_lt, Forall_rev, H.
Qed.

Lemma of_be_ge (ds : list N) :
  ds <> [] -> hd 1 ds <> 0 ->
  b ^ N.of_nat (length ds - 1) <= Radix.of_be b ds.
Proof.
  intros Hne Hhd. unfold Radix.of_be. rewrite <- length_rev.
  apply of_le_ge.
  - intros E. apply Hne. rewrite <- (rev_involutive ds), E. reflexivity.
  - rewrite last_rev. exact Hhd.
Qed.

End RadixSize.

Lemma encode_length (source : bytes) :
  exists rest,
    source = repeat x00 (leading (Byte.eqb x00) source) ++ rest
    /\ leading (Byte.eqb x00) rest = O
    /\ length (bs58.encode source) =
       (leading (Byte.eqb x00) source
        + length (Radix.to_be 58
                    (Radix.of_be 256 (map Byte.to_N rest))))%nat.
Proof.
  destruct (leading_split (Byte.eqb x00) x00 source) as (rest & E & Hrest).
  { intros y Hy. apply Byte.byte_dec_bl in Hy. congruence. }
  exists rest. split; [exact E|]. split; [exact Hrest|].
  unfold bs58.encode.
  rewrite length_app, repeat_length, length_map. f_equal.
  rewrite E at 1. rewrite map_app, map_repeat.
  change (Byte.to_N x00) with 0.
  rewrite of_be_zeros_app by reflexivity. reflexivity.
Qed.

(** A base58 string is at least as long as the bytes it encodes. *)
Lemma encode_length_ge (source : bytes) :
  (length source <= length (bs58.encode source))%nat.
Proof.
  destruct (encode_length source) as (rest & E & Hrest & ->).
  rewrite E at 1. rewrite length_app, repeat_length.
  apply Nat.add_le_mono_l.
  destruct rest as [|x rest']; [cbn [length]; lia|].
  set (rest := x :: rest') in *.
  assert (Hge : 256 ^ N.of_nat (length (map Byte.to_N rest) - 1)
                <= Radix.of_be 256 (map Byte.to_N rest)).
  { apply of_be_ge; [reflexivity|discriminate|].
    apply bs58_facts.leading_nonzero_bytes. exact Hrest. }
  rewrite length_map in Hge.
  assert (Hpow : 58 ^ N.of_nat (length rest - 1)
                 <= 256 ^ N.of_nat (length rest - 1))
    by (apply N.pow_le_mono_l; lia).
  assert (Hgt : (length rest - 1
                 < length (Radix.to_be 58
                             (Radix.of_be 256 (map Byte.to_N rest))))%nat)
    by (apply to_be_length_gt; [reflexivity|lia]).
  lia.
Qed.

(** And longer by at most [slack] characters when 58 to the power
    [m + slack] reaches 256 to the power [m] for every [m] up to the
    number of bytes. *)
Lemma encode_length_le (source : bytes) (slack : nat) :
  (forall m, (m <= length source)%nat ->
             256 ^ N.of_nat m <= 58 ^ N.of_nat (m + slack)) ->
  (length (bs58.encode source) <= length source + slack)%nat.
Proof.
  intros Hpow.
  destruct (encode_length source) as (rest & E & Hrest & ->).
  assert (Hlen : length source
                 = (leading (Byte.eqb x00) source + length rest)%nat).
  { rewrite E at 1. rewrite length_app, repeat_length. reflexivity. }
  assert (Hlt : Radix.of_be 256 (map Byte.to_N rest)
                < 256 ^ N.of_nat (length (map Byte.to_N rest))).
  { apply of_be_lt; [reflexivity|].
    apply Forall_map, Forall_forall. intros x _. apply to_N_lt_256. }
  rewrite length_map in Hlt.
  assert (Hle : (length (Radix.to_be 58
                           (Radix.of_be 256 (map Byte.to_N rest)))
                 <= length rest + slack)%nat).
  { apply to_be_length_le; [reflexivity|].
    specialize (Hpow (length rest) ltac:(lia)). lia. }
  lia.
Qed.

Lemma encode_in_alphabet (source : bytes) :
  Forall (fun c => In c bs58.ALPHABET) (bs58.encode source).
Proof.
  unfold bs58.encode. apply Forall_app. split.
  - apply Forall_forall. intros c Hc. apply repeat_spec in Hc. subst c.
    left. reflexivity.
  - apply Forall_map.
    eapply Forall_impl; [|apply (to_be_digits bs58.BASE eq_refl)].
    intros d Hd. unfold bs58.char_of_digit. apply nth_In.
    rewrite bs58_facts.ALPHABET_length. unfold bs58.BASE in Hd. lia.
Qed.

Lemma powers_32 (m : nat) :
  (m <= 32)%nat -> 256 ^ N.of_nat m <= 58 ^ N.of_nat (m + 12).
Proof.
  intros Hm.
  assert (Hall : forallb
                   (fun m => 256 ^ N.of_nat m <=? 58 ^ N.of_nat (m + 12))
                   (seq 0 33) = true) by (vm_compute; reflexivity).
  rewrite forallb_forall in Hall. apply N.leb_le, Hall, in_seq. lia.
Qed.

Lemma powers_64 (m : nat) :
  (m <= 64)%nat -> 256 ^ N.of_nat m <= 58 ^ N.of_nat (m + 24).
Proof.
  intros Hm.
  assert (Hall : forallb
                   (fun m => 256 ^ N.of_nat m <=? 58 ^ N.of_nat (m + 24))
                   (seq 0 65) = true) by (vm_compute; reflexivity).
  rewrite forallb_forall in Hall. apply N.leb_le, Hall, in_seq. lia.
Qed.

(** The base58 string of 32 bytes has 32 to 44 characters, the one of 64
    bytes 64 to 88. *)
Lemma key_string_size (source : bytes) :
  length source = 32%nat ->
  (32 <= length (bs58.encode source) <= 44)%nat.
Proof.
  intros H. pose proof (encode_length_ge source).
  pose proof (encode_length_le source 12) as Hle.
  rewrite H in *. split; [assumption|]. apply Hle, powers_32.
Qed.

Lemma signature_string_size (source : bytes) :
  length source = 64%nat ->
  (64 <= length (bs58.encode source) <= 88)%nat.
Proof.
  intros H. pose proof (encode_length_ge source).
  pose proof (encode_length_le source 24) as Hle.
  rewrite H in *. split; [assumption|]. apply Hle, powers_64.
Qed.

Lemma signMessage_Ok (ed : Noble) (derivedPrivateKey message : js_string)
  (s : Signed.t) :
  signMessage ed derivedPrivateKey message = Ok s ->
  exists privateKeyBytes publicKeyBytes signatureBytes,
    bs58.decode derivedPrivateKey = Ok privateKeyBytes
    /\ length privateKeyBytes = 32%nat
    /\ getPublicKey ed privateKeyBytes = Ok publicKeyBytes
    /\ sign ed (TextEncoder.encode message) privateKeyBytes
       = Ok signatureBytes
    /\ s = {| Signed.signature := bs58.encode signatureBytes;
              Signed.publicKey := bs58.encode publicKeyBytes |}.
Proof.
  unfold signMessage. intros H.
  apply bind_Ok in H. destruct H as (k & Hdec & H).
  apply throw_if_Ok in H. destruct H as [Hlen H].
  apply bind_Ok in H. destruct H as (pub & Hpub & H).
  apply bind_Ok in H. destruct H as (sig & Hsig & H).
  apply Ok_inj in H.
  apply negb_false_iff, Nat.eqb_eq in Hlen.
  exists k, pub, sig. auto.
Qed.

Section Sizes.

Variable ed : Noble.

Hypothesis hmac_sha512_ok : forall key message,
  exists h, hmac_sha512 ed key message = Ok h /\ length h = 64%nat.
Hypothesis getPublicKey_ok : forall priv,
  length priv = 32%nat ->
  exists pub, getPublicKey ed priv = Ok pub /\ length pub = 32%nat.
Hypothesis sign_ok : forall message priv,
  length priv = 32%nat ->
  exists sig, sign ed message priv = Ok sig /\ length sig = 64%nat.

(** X19.  The strings the core returns have a fixed range of sizes and
    hold base58 characters only: a private or public key has 32 to 44
    characters, a signature 64 to 88. *)
Theorem returned_strings_sizes
  (masterPrivateKey appId derivedPrivateKey message : js_string)
  (id : identity) (s : Signed.t) :
  deriveAppIdentity ed masterPrivateKey appId = Ok id ->
  signMessage ed derivedPrivateKey message = Ok s ->
  ((32 <= length (privateKey id) <= 44)%nat
   /\ (32 <= length (publicKey id) <= 44)%nat
   /\ (64 <= length (Signed.signature s) <= 88)%nat
   /\ (32 <= length (Signed.publicKey s) <= 44)%nat)
  /\ Forall (fun c => In c bs58.ALPHABET)
       (privateKey id ++ publicKey id
          ++ Signed.signature s ++ Signed.publicKey s).
Proof.
  intros Hid Hs.
  apply deriveAppIdentity_Ok in Hid.
  destruct Hid as (k & h & pub & _ & _ & Hh & Hpub & ->).
  destruct (hmac_sha512_ok k
              (TextEncoder.encode (DOMAIN_SEPARATOR ++ appId)))
    as (h' & Hh' & Hlenh).
  rewrite Hh in Hh'. apply Ok_inj in Hh'. subst h'.
  assert (Hsk : length (firstn 32 h) = 32%nat)
    by (rewrite length_firstn; lia).
  destruct (getPublicKey_ok _ Hsk) as (pub' & Hpub' & Hlenpub).
  rewrite Hpub in Hpub'. apply Ok_inj in Hpub'. subst pub'.
  apply signMessage_Ok in Hs.
  destruct Hs as (k2 & pub2 & sig & _ & Hlen2 & Hpub2 & Hsig & ->).
  destruct (getPublicKey_ok _ Hlen2) as (pub2' & Hpub2' & Hlenpub2).
  rewrite Hpub2 in Hpub2'. apply Ok_inj in Hpub2'. subst pub2'.
  destruct (sign_ok (TextEncoder.encode message) _ Hlen2)
    as (sig' & Hsig' & Hlensig).
  rewrite Hsig in Hsig'. apply Ok_inj in Hsig'. subst sig'.
  cbn [privateKey publicKey Signed.signature Signed.publicKey].
  split.
  - repeat split;
      try (apply key_string_size; assumption);
      try (apply signature_string_size; assumption).
  - apply Forall_app. split; [apply encode_in_alphabet|].
    apply Forall_app. split; [apply encode_in_alphabet|].
    apply Forall_app. split; apply encode_in_alphabet.
Qed.

End Sizes.

(** The result of signing with the all-zero key in the executable
    instance. *)
Definition test_signed : Signed.t :=
  Eval vm_compute in
    match signMessage Model.noble zero_key (js "Test message") with
    | Ok s => s
    | Err _ => {| Signed.signature := []; Signed.publicKey := [] |}
    end.

Lemma returned_strings_sizes_witness :
  ((32 <= length (privateKey signing_identity) <= 44)%nat
   /\ (32 <= length (publicKey signing_identity) <= 44)%nat
   /\ (64 <= length (Signed.signature test_signed) <= 88)%nat
   /\ (32 <= length (Signed.publicKey test_signed) <= 44)%nat)
  /\ Forall (fun c => In c bs58.ALPHABET)
       (privateKey signing_identity ++ publicKey signing_identity
          ++ Signed.signature test_signed ++ Signed.publicKey test_signed).
Proof.
  apply (returned_strings_sizes Model.noble
           Model_facts.hmac_sha512_ok Model_facts.getPublicKey_ok
           Model_facts.sign_ok
           zero_key (js "signing-app") zero_key (js "Test message")
           signing_identity test_signed).
  - exact signing_identity_derived.
  - vm_compute. reflexivity.
Defined.
